(** * ec2menu v5.5.0: the resource cache and the batch command executor

    A shallow embedding of three parts of [ec2menu_v5.5.0_mac.py]:
    - [CacheEntry] and [PerformanceCache] (the TTL cache with its
      background refresh threads),
    - [BatchJobManager] ([_validate_ssm_instances], [execute_batch_command]
      with its nested [execute_on_instance] worker, [save_results_history]),
      and
    - the instance listing of [AWSManager] ([list_instances],
      [_fetch_instances]) with the cache keys the listings use.

    Conventions.
    - Python [str] is [string]; the keys and names the program builds are
      ASCII, and [lower] maps the ASCII letters only.
    - [datetime.now()] is an integer count of microseconds ([datetime] has
      exactly that resolution); [timedelta(seconds=n)] is [n * 1000000].
    - [time.time()] in the batch worker is a virtual clock in milliseconds
      that [time.sleep] and the remote calls advance.
    - every [with self._lock:] block is one atomic transition. *)

From Stdlib Require Import ZArith String Ascii List Lia Bool Permutation.
From stdpp Require Import gmap strings list fin_maps pretty.

Local Open Scope string_scope.
Local Open Scope list_scope.
Local Open Scope Z_scope.

(** ** Python string helpers *)

Module PyStr.

(** [c in s] for a one-character [c]. *)
Fixpoint contains (c : ascii) (s : string) : bool :=
  match s with
  | EmptyString => false
  | String d rest => if Ascii.eqb d c then true else contains c rest
  end.

(** [s.split(sep)] for a one-character separator: never the empty list,
    [''.split('_') == ['']]. *)
Fixpoint split (sep : ascii) (s : string) : list string :=
  match s with
  | EmptyString => [EmptyString]
  | String d rest =>
      if Ascii.eqb d sep then EmptyString :: split sep rest
      else match split sep rest with
           | [] => [String d EmptyString]
           | piece :: pieces => String d piece :: pieces
           end
  end.

Definition lower_ascii (c : ascii) : ascii :=
  let n := nat_of_ascii c in
  if ((65 <=? n)%nat && (n <=? 90)%nat)%bool then ascii_of_nat (n + 32) else c.

(** [s.lower()] on ASCII text. *)
Fixpoint lower (s : string) : string :=
  match s with
  | EmptyString => EmptyString
  | String d rest => String (lower_ascii d) (lower rest)
  end.

(** The text before the first occurrence of [sep] (the whole string when
    there is none). *)
Fixpoint before_first (sep : ascii) (s : string) : string :=
  match s with
  | EmptyString => EmptyString
  | String d rest =>
      if Ascii.eqb d sep then EmptyString else String d (before_first sep rest)
  end.

(** The ASCII characters for which [str.isspace()] holds. *)
Definition is_space (c : ascii) : bool :=
  let n := nat_of_ascii c in
  ((n =? 32)%nat || ((9 <=? n)%nat && (n <=? 13)%nat)
   || ((28 <=? n)%nat && (n <=? 31)%nat))%bool.

Fixpoint lstrip (s : string) : string :=
  match s with
  | EmptyString => EmptyString
  | String d rest => if is_space d then lstrip rest else s
  end.

Fixpoint rev_append (s acc : string) : string :=
  match s with
  | EmptyString => acc
  | String d rest => rev_append rest (String d acc)
  end.

(** [s.strip()] *)
Definition strip (s : string) : string :=
  rev_append (lstrip (rev_append (lstrip s) EmptyString)) EmptyString.

End PyStr.

(** ** class Config *)

Module Config.

Definition CACHE_TTL_SECONDS : Z := 300.

(** [Config.CACHE_TTLS], in source order. *)
Definition CACHE_TTLS_items : list (string * Z) :=
  [ ("instances", 120); ("ssm", 120); ("rds", 300); ("elasticache", 300);
    ("ecs", 600); ("eks", 600); ("regions", 3600);
    ("cloudwatch_dashboards", 600); ("cloudwatch_alarms", 120);
    ("cloudwatch_logs", 60); ("lambda", 300); ("s3_buckets", 600);
    ("s3_objects", 60); ("default", 300) ].

Definition CACHE_TTLS : gmap string Z := list_to_map CACHE_TTLS_items.

Definition BATCH_MAX_RETRIES : nat := 3.
Definition BATCH_COMMAND_RETRY : nat := 3.
Definition BATCH_RETRY_DELAY : Z := 10.
Definition BATCH_RETRY_MAX_DELAY : Z := 60.
Definition BATCH_TIMEOUT_SECONDS : Z := 600.
Definition BATCH_MAX_WAIT_ATTEMPTS : nat := 200.
Definition BATCH_CONCURRENT_JOBS : nat := 5.
Definition WAIT_PORT_READY : Z := 2.
Definition HISTORY_MAX_SIZE : nat := 100.

End Config.

(** ** CacheEntry and PerformanceCache *)

Module Cache.

Section Entries.

(** The cached payload ([data: Any]). *)
Context {Any : Type}.

Record CacheEntry := mkCacheEntry {
  data : Any;
  timestamp : Z;
  ttl_seconds : Z
}.

Definition timedelta_seconds (n : Z) : Z := n * 1000000.

(** [CacheEntry.is_expired], with [datetime.now()] passed in. *)
Definition is_expired (now : Z) (self : CacheEntry) : bool :=
  now - timestamp self >? timedelta_seconds (ttl_seconds self).

Record PerformanceCache := mkPerformanceCache {
  _cache : gmap string CacheEntry;
  _background_refresh_active : gmap string bool
}.

(** [PerformanceCache.__init__] *)
Definition new_cache : PerformanceCache :=
  {| _cache := ∅; _background_refresh_active := ∅ |}.

Definition _get_ttl_for_key (key : string) : Z :=
  let resource_type :=
    if PyStr.contains "_" key
    then PyStr.lower (hd EmptyString (PyStr.split "_" key))
    else "default" in
  default (Config.CACHE_TTLS !!! "default") (Config.CACHE_TTLS !! resource_type).

(** [get]: the returned value and the cache afterwards. *)
Definition get (key : string) (now : Z) (self : PerformanceCache)
  : option Any * PerformanceCache :=
  match _cache self !! key with
  | Some entry =>
      if negb (is_expired now entry) then (Some (data entry), self)
      else (None, self)
  | None => (None, self)
  end.

Definition set (key : string) (new_data : Any) (ttl : option Z) (now : Z)
    (self : PerformanceCache) : PerformanceCache :=
  let ttl_seconds :=
    match ttl with
    | None => _get_ttl_for_key key
    | Some t => t
    end in
  {| _cache := <[key := mkCacheEntry new_data now ttl_seconds]> (_cache self);
     _background_refresh_active := _background_refresh_active self |}.

Definition invalidate (key : string) (self : PerformanceCache) : PerformanceCache :=
  {| _cache := delete key (_cache self);
     _background_refresh_active := _background_refresh_active self |}.

Definition clear (self : PerformanceCache) : PerformanceCache :=
  {| _cache := ∅;
     _background_refresh_active := _background_refresh_active self |}.

End Entries.

Arguments CacheEntry : clear implicits.
Arguments PerformanceCache : clear implicits.

(** ** Background refresh: the cache together with its refresh threads *)

Section Refresh.

Context {Any : Type}.

(** What the call of [refresh_func] with its arguments does. *)
Inductive fetch_result :=
| Fetched (new_data : Any)
| FetchRaised (e : string).

(** Where a [refresh_worker] thread stands:
    - [WStart]: started, [refresh_func] not called yet;
    - [WFetched r]: [refresh_func] has returned or raised, the
      [self.set] or the [except] clause is next;
    - [WFinally]: only the [finally] clause is left. *)
Inductive worker_pc :=
| WStart
| WFetched (r : fetch_result)
| WFinally.

Record worker := mkWorker {
  w_key : string;
  w_func : unit -> fetch_result;
  w_pc : worker_pc
}.

(** The process: the shared cache, the live refresh threads, a log of the
    keys whose [refresh_func] has been invoked (one item per call), and
    the [logging.warning] lines. *)
Record system := mkSystem {
  cache : PerformanceCache Any;
  threads : list worker;
  fetch_calls : list string;
  warnings : list string
}.

Definition init_system : system :=
  {| cache := new_cache; threads := []; fetch_calls := []; warnings := [] |}.

Definition in_flight (key : string) (sys : system) : bool :=
  bool_decide (key ∈ dom (_background_refresh_active (cache sys))).

(** [start_background_refresh]: the caller's part, up to
    [threading.Thread(...).start()]. *)
Definition start_background_refresh (key : string)
    (refresh_func : unit -> fetch_result) (sys : system) : system :=
  if in_flight key sys
  then sys
  else
    {| cache :=
         {| _cache := _cache (cache sys);
            _background_refresh_active :=
              <[key := true]> (_background_refresh_active (cache sys)) |};
       threads := threads sys ++ [mkWorker key refresh_func WStart];
       fetch_calls := fetch_calls sys;
       warnings := warnings sys |}.

Definition pop_active (key : string) (c : PerformanceCache Any)
  : PerformanceCache Any :=
  {| _cache := _cache c;
     _background_refresh_active := delete key (_background_refresh_active c) |}.

(** One transition of the thread at position [i] of the thread list, at
    clock reading [now]. *)
Definition refresh_worker_step (i : nat) (now : Z) (sys : system) : system :=
  match threads sys !! i with
  | None => sys
  | Some w =>
      match w_pc w with
      | WStart =>
          {| cache := cache sys;
             threads :=
               <[i := mkWorker (w_key w) (w_func w) (WFetched (w_func w tt))]>
                 (threads sys);
             fetch_calls := fetch_calls sys ++ [w_key w];
             warnings := warnings sys |}
      | WFetched (Fetched new_data) =>
          {| cache := set (w_key w) new_data None now (cache sys);
             threads := <[i := mkWorker (w_key w) (w_func w) WFinally]> (threads sys);
             fetch_calls := fetch_calls sys;
             warnings := warnings sys |}
      | WFetched (FetchRaised e) =>
          {| cache := cache sys;
             threads := <[i := mkWorker (w_key w) (w_func w) WFinally]> (threads sys);
             fetch_calls := fetch_calls sys;
             warnings :=
               warnings sys ++ ["백그라운드 새로고침 실패 (" +:+ w_key w +:+ "): " +:+ e] |}
      | WFinally =>
          {| cache := pop_active (w_key w) (cache sys);
             threads := delete i (threads sys);
             fetch_calls := fetch_calls sys;
             warnings := warnings sys |}
      end
  end.

(** What can happen next in the process: a call of a cache method by some
    caller, or a transition of a refresh thread. *)
Inductive action :=
| CallGet (key : string) (now : Z)
| CallSet (key : string) (new_data : Any) (ttl : option Z) (now : Z)
| CallInvalidate (key : string)
| CallClear
| CallStart (key : string) (refresh_func : unit -> fetch_result)
| StepWorker (i : nat) (now : Z).

Definition with_cache (f : PerformanceCache Any -> PerformanceCache Any)
    (sys : system) : system :=
  {| cache := f (cache sys); threads := threads sys;
     fetch_calls := fetch_calls sys; warnings := warnings sys |}.

Definition step (a : action) (sys : system) : system :=
  match a with
  | CallGet key now => with_cache (fun c => snd (get key now c)) sys
  | CallSet key new_data ttl now => with_cache (set key new_data ttl now) sys
  | CallInvalidate key => with_cache (invalidate key) sys
  | CallClear => with_cache clear sys
  | CallStart key refresh_func => start_background_refresh key refresh_func sys
  | StepWorker i now => refresh_worker_step i now sys
  end.

Definition run (schedule : list action) (sys : system) : system :=
  fold_left (fun s a => step a s) schedule sys.

(** A schedule that never calls [start_background_refresh] for [key]. *)
Definition starts_key (key : string) (a : action) : bool :=
  match a with
  | CallStart key' _ => bool_decide (key' = key)
  | _ => false
  end.

Definition count_key (key : string) (log : list string) : nat :=
  length (filter (fun k => k = key) log).

(** The actions that write the entry of [key]: [set] on that key, by a
    caller or by a refresh thread whose fetch succeeded, [invalidate(key)]
    and [clear()]. *)
Definition writes_key (key : string) (a : action) (sys : system) : bool :=
  match a with
  | CallSet key' _ _ _ => bool_decide (key' = key)
  | CallInvalidate key' => bool_decide (key' = key)
  | CallClear => true
  | StepWorker i _ =>
      match threads sys !! i with
      | Some w =>
          match w_pc w with
          | WFetched (Fetched _) => bool_decide (w_key w = key)
          | _ => false
          end
      | None => false
      end
  | CallGet _ _ | CallStart _ _ => false
  end.

(** A refresh thread whose fetch raises, or has raised. *)
Definition fetch_failed (w : worker) : bool :=
  match w_pc w with
  | WStart => match w_func w tt with FetchRaised _ => true | Fetched _ => false end
  | WFetched (FetchRaised _) => true
  | WFetched (Fetched _) => false
  | WFinally => true
  end.

Definition thread_keys (sys : system) : list string := map w_key (threads sys).

(** The states the process can be in: the in-flight markers are the keys
    of the live refresh threads, one thread per key. *)
Definition consistent (sys : system) : Prop :=
  NoDup (thread_keys sys) /\
  forall k, k ∈ dom (_background_refresh_active (cache sys)) <-> k ∈ thread_keys sys.

(** The refresh threads for [key] that have not called [refresh_func] yet. *)
Definition not_fetched_yet (key : string) (w : worker) : bool :=
  bool_decide (w_key w = key) &&
  match w_pc w with WStart => true | _ => false end.

Definition pending_fetches (key : string) (sys : system) : nat :=
  length (List.filter (not_fetched_yet key) (threads sys)).

(** The calls of the fetch function for [key], made and still to come. *)
Definition fetch_balance (key : string) (sys : system) : nat :=
  (count_key key (fetch_calls sys) + pending_fetches key sys)%nat.

End Refresh.

Arguments fetch_result : clear implicits.
Arguments worker : clear implicits.
Arguments system : clear implicits.
Arguments action : clear implicits.

(** The TTL of a key the way the specification words it: the text before
    the first separator, lowercased, is the resource class; its TTL is
    looked up in the policy, and the default TTL is the fallback, also for a
    key without a separator. *)
Definition resolve_from_policy (key : string) : Z :=
  if PyStr.contains "_" key then
    match Config.CACHE_TTLS !! PyStr.lower (PyStr.before_first "_" key) with
    | Some ttl => ttl
    | None => Config.CACHE_TTL_SECONDS
    end
  else Config.CACHE_TTL_SECONDS.

End Cache.

(** ** BatchJobManager *)

Module Batch.

Record BatchJobResult := mkBatchJobResult {
  command : string;
  instance_id : string;
  instance_name : string;
  status : string;
  output : string;
  error : string;
  execution_time : Z;
  timestamp : Z
}.

(** The [instance_data] dict: [instance_data['Name']],
    [instance_data.get('Region')] and [instance_data['raw']['InstanceId']]. *)
Record instance_data := mkInstance {
  Name : string;
  Region : option string;
  InstanceId : string
}.

(** *** The remote side, as the worker of one target sees it *)

(** An exception raised by a boto3 call or while its reply is read: a
    [ClientError] with its error code and its [str(e)], or any other
    [Exception] (a connection error, the [KeyError] of a reply without
    ['Status'], ...) with its [str(e)]. *)
Inductive exn :=
| ClientError (code msg : string)
| Exception (msg : string).

(** The dict [get_command_invocation] returns; a key read with
    [.get(k, '')] that is missing is the empty string. *)
Record invocation := mkInvocation {
  Status : string;
  StandardOutputContent : string;
  StandardErrorContent : string;
  StatusDetails : string
}.

Inductive send_reply :=
| SendOk (command_id : string)
| SendRaises (e : exn).

Inductive poll_reply :=
| PollOk (result : invocation)
| PollRaises (e : exn).

(** The SSM client of one worker: the reply to the [send_command] of
    attempt [a] and to the [attempt_count]-th [get_command_invocation] of
    attempt [a], each with the time the call takes (milliseconds). *)
Record ssm_client := mkClient {
  send_command : nat -> Z * send_reply;
  get_command_invocation : nat -> nat -> Z * poll_reply
}.

Inductive event :=
| Sleep (seconds : Z)
| SendCommand (attempt : nat)
| GetCommandInvocation (attempt attempt_count : nat).

(** The worker's view of time and of what it has done so far. *)
Record wstate := mkWstate {
  clock : Z;
  trace : list event
}.

(** [time.sleep(seconds)] *)
Definition sleep (seconds : Z) (st : wstate) : wstate :=
  {| clock := clock st + seconds * 1000; trace := trace st ++ [Sleep seconds] |}.

(** A remote call [ev] that takes [latency] milliseconds. *)
Definition call (ev : event) (latency : Z) (st : wstate) : wstate :=
  {| clock := clock st + latency; trace := trace st ++ [ev] |}.

(** The attempts whose [send_command] appears in a trace, in order. *)
Definition attempts_made (tr : list event) : list nat :=
  flat_map (fun ev => match ev with SendCommand attempt => [attempt] | _ => [] end) tr.

(** The [get_command_invocation] calls of a trace, in order. *)
Definition polls_made (tr : list event) : list (nat * nat) :=
  flat_map
    (fun ev =>
       match ev with
       | GetCommandInvocation attempt attempt_count => [(attempt, attempt_count)]
       | _ => []
       end) tr.

Definition terminal_statuses : list string :=
  ["Success"; "Failed"; "Cancelled"; "TimedOut"].

Definition str_in (s : string) (l : list string) : bool :=
  existsb (String.eqb s) l.

(** Python's [a or b] on strings. *)
Definition str_or (a b : string) : string :=
  match a with EmptyString => b | _ => a end.

Section Worker.

(** [max_retries] is the local variable that [execute_on_instance] binds
    to [Config.BATCH_COMMAND_RETRY]. *)
Variable max_retries : nat.
Variable command_ : string.
Variable timeout_seconds : Z.
Variable instance : instance_data.
Variable ssm : ssm_client.

Definition max_wait : Z := timeout_seconds + 30.
Definition max_attempts : nat := 200.

(** How the polling [while] loop of one attempt is left. *)
Inductive poll_exit :=
| PollReturn (r : BatchJobResult)
| PollRaise (msg : string)
| PollExhausted.

(** The [while waited < max_wait and attempt_count < max_attempts] loop
    of attempt [attempt]; [remaining] is [max_attempts - attempt_count]. *)
Fixpoint poll_loop (attempt : nat) (start_time : Z) (remaining : nat)
    (waited : Z) (st : wstate) : poll_exit * wstate :=
  match remaining with
  | O => (PollExhausted, st)
  | S remaining' =>
      if waited <? max_wait then
        let attempt_count := (max_attempts - remaining')%nat in
        let '(latency, reply) := get_command_invocation ssm attempt attempt_count in
        let st := call (GetCommandInvocation attempt attempt_count) latency st in
        match reply with
        | PollOk result =>
            if str_in (Status result) terminal_statuses then
              let execution_time := clock st - start_time in
              if String.eqb (Status result) "Success" then
                (PollReturn
                   {| command := command_;
                      instance_id := InstanceId instance;
                      instance_name := Name instance;
                      status := "SUCCESS";
                      output := PyStr.strip (StandardOutputContent result);
                      error := "";
                      execution_time := execution_time;
                      timestamp := clock st |}, st)
              else
                let error := str_or (StandardErrorContent result) (StatusDetails result) in
                if (attempt <? max_retries)%nat then
                  (PollRaise ("Command " +:+ Status result +:+ ": " +:+ error), st)
                else
                  (PollReturn
                     {| command := command_;
                        instance_id := InstanceId instance;
                        instance_name := Name instance;
                        status := "FAILED";
                        output := "";
                        error := error;
                        execution_time := execution_time;
                        timestamp := clock st |}, st)
            else
              poll_loop attempt start_time remaining' (waited + 3) (sleep 3 st)
        | PollRaises (ClientError code _) =>
            if String.eqb code "InvocationDoesNotExist" then
              poll_loop attempt start_time remaining' (waited + 2) (sleep 2 st)
            else
              poll_loop attempt start_time remaining' (waited + 2)
                (sleep Config.WAIT_PORT_READY st)
        | PollRaises (Exception msg) => (PollRaise msg, st)
        end
      else (PollExhausted, st)
  end.

(** How one iteration of [for attempt in range(max_retries + 1)] ends. *)
Inductive attempt_exit :=
| Return (r : BatchJobResult)
| Continue.

Definition failed_result (err : string) (start_time : Z) (st : wstate)
  : BatchJobResult :=
  {| command := command_;
     instance_id := InstanceId instance;
     instance_name := Name instance;
     status := "FAILED";
     output := "";
     error := err;
     execution_time := clock st - start_time;
     timestamp := clock st |}.

(** The two outer handlers, [except ClientError] and [except Exception]. *)
Definition handle (attempt : nat) (start_time : Z) (e : exn) (st : wstate)
  : attempt_exit * wstate :=
  match e with
  | ClientError _ msg =>
      if (attempt <? max_retries)%nat then (Continue, st)
      else (Return (failed_result msg start_time st), st)
  | Exception msg =>
      if (attempt <? max_retries)%nat then (Continue, st)
      else (Return (failed_result msg start_time st), st)
  end.

(** The [if attempt > 0:] block: the wait before a retry. *)
Definition backed_off (attempt : nat) (st : wstate) : wstate :=
  if (0 <? attempt)%nat then
    sleep (Z.min (Config.BATCH_RETRY_DELAY * Z.of_nat attempt)
                 Config.BATCH_RETRY_MAX_DELAY) st
  else st.

Definition attempt_body (attempt : nat) (st : wstate) : attempt_exit * wstate :=
  let start_time := clock st in
  let st := backed_off attempt st in
  let '(latency, reply) := send_command ssm attempt in
  let st := call (SendCommand attempt) latency st in
  match reply with
  | SendRaises e => handle attempt start_time e st
  | SendOk command_id =>
      match poll_loop attempt start_time max_attempts 0 st with
      | (PollReturn r, st) => (Return r, st)
      | (PollRaise msg, st) => handle attempt start_time (Exception msg) st
      | (PollExhausted, st) =>
          if (attempt <? max_retries)%nat then (Continue, st)
          else
            (Return
               {| command := command_;
                  instance_id := InstanceId instance;
                  instance_name := Name instance;
                  status := "TIMEOUT";
                  output := "";
                  error := "Command timed out after " +:+ pretty max_wait +:+ " seconds";
                  execution_time := clock st - start_time;
                  timestamp := clock st |}, st)
      end
  end.

(** [for attempt in range(max_retries + 1)], from [attempt] on, with
    [remaining = max_retries - attempt]; [None] is the Python [None] a
    function returns when its loop ends without a [return]. *)
Fixpoint retry_loop (remaining : nat) (attempt : nat) (st : wstate)
  : option BatchJobResult * wstate :=
  match attempt_body attempt st with
  | (Return r, st') => (Some r, st')
  | (Continue, st') =>
      match remaining with
      | O => (None, st')
      | S remaining' => retry_loop remaining' (S attempt) st'
      end
  end.

Definition execute_on_instance (st : wstate) : option BatchJobResult * wstate :=
  retry_loop max_retries 0%nat st.

(** What a result built by the worker in attempt [attempt] looks like, when
    the attempt started at [start_time] and the worker is in state [st]. *)
Definition worker_result (attempt : nat) (start_time : Z) (st : wstate)
    (r : BatchJobResult) : Prop :=
  command r = command_ /\
  instance_id r = InstanceId instance /\
  instance_name r = Name instance /\
  execution_time r = clock st - start_time /\
  (status r = "SUCCESS" \/
   (attempt <? max_retries)%nat = false /\ (status r = "FAILED" \/ status r = "TIMEOUT")).

(** The exits of the polling loop and of an attempt without their clock
    readings. *)
Definition poll_kind (e : poll_exit) : option string + option string :=
  match e with
  | PollReturn r => inl (Some (status r))
  | PollRaise msg => inr (Some msg)
  | PollExhausted => inr None
  end.

Definition exit_status (e : attempt_exit) : option string :=
  match e with
  | Return r => Some (status r)
  | Continue => None
  end.

(** Whether attempt [attempt] ends with a successful command; what the
    remote side answers does not depend on the clock, so the attempt is run
    from a clock at zero. *)
Definition attempt_succeeds (attempt : nat) : bool :=
  match fst (attempt_body attempt {| clock := 0; trace := [] |}) with
  | Return r => String.eqb (status r) "SUCCESS"
  | Continue => false
  end.

(** Every attempt the retry budget allows ends in a failure, a timeout or
    a submit error. *)
Definition every_attempt_fails : bool :=
  forallb (fun attempt => negb (attempt_succeeds attempt)) (seq 0 (S max_retries)).

End Worker.

(** *** The manager *)

(** [describe_instance_information]: the [(InstanceId, PingStatus)] pairs
    of [response['InstanceInformationList']], or an exception. *)
Inductive describe_reply :=
| DescribeOk (InstanceInformationList : list (string * string))
| DescribeRaises (e : string).

(** [self.aws_manager.session.client('ssm', region_name=region)] in a
    worker. *)
Inductive client_reply :=
| ClientRaises (e : string)
| ClientOk (ssm : ssm_client).

Record worker_env := mkWorkerEnv {
  started_at : Z;
  client : client_reply
}.

(** What [save_results_history] meets at the history file: the dump is
    written; [open(BATCH_RESULTS_PATH, 'w')] raises, and the file is left as
    it was; or [open] has emptied the file and [json.dump] (or the closing of
    the file) raises. *)
Inductive storage_outcome :=
| Saved
| OpenFailed
| DumpFailed.

(** The file at [BATCH_RESULTS_PATH]: missing, the complete dump of a list
    of results, or a text cut short by a failed dump. *)
Inductive results_file :=
| NoFile
| Dump (results : list BatchJobResult)
| Unfinished.

(** Everything outside the program during one call of
    [execute_batch_command]: the SSM status service, the environment of
    the worker submitted at each position of [validated_instances], the
    order in which the futures complete, what the user types at the
    re-drive prompt ([Some w'] is the answer [y], with the outside of the
    recursive call; [None] is any other answer), and what happens when the
    history file is written. *)
#[warnings="-register-all"] Inductive world := mkWorld {
  describe_instance_information : string -> list string -> describe_reply;
  worker_of : nat -> worker_env;
  completion_order : list nat;
  retry_choice : option world;
  storage : storage_outcome
}.

Record BatchJobManager := mkManager {
  results_history : list BatchJobResult;
  batch_results_file : results_file
}.

Definition region_of (instance : instance_data) : string :=
  default "unknown" (Region instance).

(** [regions_to_check[region].append(instance_data)], creating the group
    when the region is new; the dict keeps insertion order. *)
Fixpoint add_to_region (region : string) (instance : instance_data)
    (regions_to_check : list (string * list instance_data))
  : list (string * list instance_data) :=
  match regions_to_check with
  | [] => [(region, [instance])]
  | (r, group) :: rest =>
      if String.eqb r region then (r, group ++ [instance]) :: rest
      else (r, group) :: add_to_region region instance rest
  end.

Definition group_by_region (instances : list instance_data)
  : list (string * list instance_data) :=
  fold_left (fun groups inst => add_to_region (region_of inst) inst groups)
    instances [].

Definition online_instances (infos : list (string * string)) : list string :=
  map fst (List.filter (fun info => String.eqb (snd info) "Online") infos).

Definition validate_region
    (describe : string -> list string -> describe_reply)
    (validated : list instance_data)
    (group : string * list instance_data) : list instance_data :=
  let '(region, region_instances) := group in
  match describe region (map InstanceId region_instances) with
  | DescribeOk infos =>
      validated ++
        List.filter (fun inst => str_in (InstanceId inst) (online_instances infos))
          region_instances
  | DescribeRaises _ => validated ++ region_instances
  end.

Definition _validate_ssm_instances
    (describe : string -> list string -> describe_reply)
    (instances : list instance_data) : list instance_data :=
  fold_left (validate_region describe) (group_by_region instances) [].

(** What [future.result()] does. *)
Inductive future_outcome :=
| Returned (r : BatchJobResult)
| Raised (e : string).

(** [concurrent.futures.as_completed]: each future once, in the order of
    completion; the [i] at the head of [order] says that the next future to
    complete is the [i]-th of those still pending (a number out of range is
    skipped, and the futures left when [order] ends complete in submission
    order). *)
Fixpoint as_completed {A} (order : list nat) (pending : list A) : list A :=
  match order with
  | [] => pending
  | i :: order' =>
      match pending !! i with
      | Some fut => fut :: as_completed order' (delete i pending)
      | None => as_completed order' pending
      end
  end.

Section Run.

Variable max_retries : nat.
Variable command_ : string.
Variable timeout_seconds : Z.

(** The future of the worker submitted for [instance]: the worker raises
    when it cannot create its client, and returns what [execute_on_instance]
    returns otherwise. Were that [None], the loop body would raise at
    [result.status]; the retry loop never ends without a [return]
    (lemma [retry_loop_returns]), so the case does not arise. *)
Definition run_worker (env : worker_env) (instance : instance_data)
  : future_outcome :=
  match client env with
  | ClientRaises e => Raised e
  | ClientOk ssm =>
      match fst (execute_on_instance max_retries command_ timeout_seconds
                   instance ssm {| clock := started_at env; trace := [] |}) with
      | Some r => Returned r
      | None => Raised "'NoneType' object has no attribute 'status'"
      end
  end.

Definition error_result (instance : instance_data) (e : string) (now : Z)
  : BatchJobResult :=
  {| command := command_;
     instance_id := InstanceId instance;
     instance_name := Name instance;
     status := "FAILED";
     output := "";
     error := "Executor error: " +:+ e;
     execution_time := 0;
     timestamp := now |}.

(** What the loop over the completed futures appends for the target
    [instance], whose worker ran in [env]: the result that the worker
    returned, or the result that the [except] branch builds when the worker
    raised. *)
Definition appended_for (env : worker_env) (instance : instance_data)
    (x : BatchJobResult) : Prop :=
  match client env with
  | ClientRaises e => x = error_result instance e (started_at env)
  | ClientOk ssm =>
      exists st',
        execute_on_instance max_retries command_ timeout_seconds instance ssm
          {| clock := started_at env; trace := [] |} = (Some x, st')
  end.

(** The body of [for future in as_completed(future_to_instance)]. *)
Definition collect (results : list BatchJobResult)
    (fut : instance_data * worker_env * future_outcome) : list BatchJobResult :=
  let '(instance, env, outcome) := fut in
  match outcome with
  | Returned result => results ++ [result]
  | Raised e => results ++ [error_result instance e (started_at env)]
  end.

(** The result that [collect] appends for a future. *)
Definition future_result (fut : instance_data * worker_env * future_outcome)
  : BatchJobResult :=
  let '(instance, env, outcome) := fut in
  match outcome with
  | Returned result => result
  | Raised e => error_result instance e (started_at env)
  end.

Definition submit_all (workers : nat -> worker_env)
    (validated_instances : list instance_data)
  : list (instance_data * worker_env * future_outcome) :=
  imap (fun i inst => (inst, workers i, run_worker (workers i) inst))
    validated_instances.

(** The thread pool block: the results in completion order. Every worker
    runs its retry loop on a state of its own, so the size of the pool
    ([min(len(validated_instances), 5)]) bears on the order of completion
    only. *)
Definition run_pool (workers : nat -> worker_env) (order : list nat)
    (validated_instances : list instance_data) : list BatchJobResult :=
  fold_left collect (as_completed order (submit_all workers validated_instances)) [].

Definition success_count (results : list BatchJobResult) : nat :=
  length (List.filter (fun r => String.eqb (status r) "SUCCESS") results).

Definition failed_count (results : list BatchJobResult) : nat :=
  (length results - success_count results)%nat.

(** [next(inst for inst in validated_instances if ...)] for every result
    that is not a success (a result always names a validated instance, so
    the generator is never empty). *)
Definition failed_instances (validated_instances : list instance_data)
    (results : list BatchJobResult) : list instance_data :=
  flat_map
    (fun r =>
       if String.eqb (status r) "SUCCESS" then []
       else
         match List.find (fun inst => String.eqb (InstanceId inst) (instance_id r))
                 validated_instances with
         | Some inst => [inst]
         | None => []
         end)
    results.

(** The inner [for i, r in enumerate(results)] with its [break]. *)
Fixpoint replace_first (retry_result : BatchJobResult)
    (results : list BatchJobResult) : list BatchJobResult :=
  match results with
  | [] => []
  | r :: rest =>
      if String.eqb (instance_id r) (instance_id retry_result)
      then retry_result :: rest
      else r :: replace_first retry_result rest
  end.

Definition patch (retry_results results : list BatchJobResult)
  : list BatchJobResult :=
  fold_left (fun results retry_result => replace_first retry_result results)
    retry_results results.

(** [self.results_history[-100:]] *)
Definition recent_results (history : list BatchJobResult) : list BatchJobResult :=
  drop (length history - 100)%nat history.

(** [save_results_history]: every exception is caught and logged; once
    the file has been opened for writing its old content is gone. *)
Definition save_results_history (outcome : storage_outcome) (self : BatchJobManager)
  : BatchJobManager :=
  match outcome with
  | Saved =>
      {| results_history := results_history self;
         batch_results_file := Dump (recent_results (results_history self)) |}
  | OpenFailed => self
  | DumpFailed =>
      {| results_history := results_history self;
         batch_results_file := Unfinished |}
  end.

Definition extend_history (results : list BatchJobResult)
    (self : BatchJobManager) : BatchJobManager :=
  {| results_history := results_history self ++ results;
     batch_results_file := batch_results_file self |}.

Fixpoint execute_batch_command (w : world) (instances : list instance_data)
    (self : BatchJobManager) {struct w}
  : list BatchJobResult * BatchJobManager :=
  match w with
  | mkWorld describe workers order answer outcome =>
      let validated_instances := _validate_ssm_instances describe instances in
      match validated_instances with
      | [] => ([], self)
      | _ :: _ =>
          let results := run_pool workers order validated_instances in
          let '(results, self) :=
            if (0 <? failed_count results)%nat then
              match answer with
              | Some w' =>
                  let '(retry_results, self) :=
                    execute_batch_command w'
                      (failed_instances validated_instances results) self in
                  (patch retry_results results, self)
              | None => (results, self)
              end
            else (results, self) in
          (results, save_results_history outcome (extend_history results self))
      end
  end.

End Run.

End Batch.

(** ** Sample targets and remote behaviours *)

Module Scenarios.

Import Batch.

Definition web1 : instance_data :=
  {| Name := "web-1"; Region := Some "ap-northeast-2"; InstanceId := "i-0a1" |}.

Definition web2 : instance_data :=
  {| Name := "web-2"; Region := Some "ap-northeast-2"; InstanceId := "i-0b2" |}.

Definition failed_invocation : invocation :=
  {| Status := "Failed"; StandardOutputContent := "";
     StandardErrorContent := "exit status 1"; StatusDetails := "Failed" |}.

Definition success_invocation : invocation :=
  {| Status := "Success"; StandardOutputContent := " up 3 days ";
     StandardErrorContent := ""; StatusDetails := "Success" |}.

(** A target on which the command fails as soon as it is polled, in every
    attempt; the remote calls take no time. *)
Definition always_failing : ssm_client :=
  {| send_command := fun _ => (0, SendOk "c-1");
     get_command_invocation := fun _ _ => (0, PollOk failed_invocation) |}.

(** A target on which the command succeeds at the first poll. *)
Definition always_succeeding : ssm_client :=
  {| send_command := fun _ => (0, SendOk "c-1");
     get_command_invocation := fun _ _ => (0, PollOk success_invocation) |}.

(** The first status query of the first attempt fails with an exception
    that is not a [ClientError]; every later query reports success. *)
Definition flaky_poll : ssm_client :=
  {| send_command := fun _ => (0, SendOk "c-1");
     get_command_invocation := fun attempt attempt_count =>
       if ((attempt =? 0)%nat && (attempt_count =? 1)%nat)%bool
       then (0, PollRaises (Exception "Could not connect to the endpoint URL"))
       else (0, PollOk success_invocation) |}.

(** The service never gets to know the invocation. *)
Definition never_registered : ssm_client :=
  {| send_command := fun _ => (0, SendOk "c-1");
     get_command_invocation := fun _ _ =>
       (0, PollRaises (ClientError "InvocationDoesNotExist" "An error occurred")) |}.

Definition at_zero : wstate := {| clock := 0; trace := [] |}.

(** The status service reports every instance it is asked about as online. *)
Definition all_online (region : string) (ids : list string) : describe_reply :=
  DescribeOk (map (fun id => (id, "Online")) ids).

Definition failing_worker : worker_env :=
  {| started_at := 0; client := ClientOk always_failing |}.

Definition succeeding_worker : worker_env :=
  {| started_at := 0; client := ClientOk always_succeeding |}.

(** A worker that cannot even create its SSM client. *)
Definition broken_worker : worker_env :=
  {| started_at := 0; client := ClientRaises "Could not connect to the endpoint URL" |}.

(** A re-drive, started a minute later, in which every target succeeds. *)
Definition second_round : world :=
  {| describe_instance_information := all_online;
     worker_of := fun _ => {| started_at := 60000; client := ClientOk always_succeeding |};
     completion_order := [];
     retry_choice := None;
     storage := Saved |}.

(** A first pass on two targets: the first fails in every attempt, the
    second succeeds and completes first; the user then asks for the
    re-drive. *)
Definition first_round : world :=
  {| describe_instance_information := all_online;
     worker_of := fun i => if (i =? 0)%nat then failing_worker else succeeding_worker;
     completion_order := [1%nat];
     retry_choice := Some second_round;
     storage := Saved |}.

(** A pass in which the worker of the first target raises. *)
Definition broken_round : world :=
  {| describe_instance_information := all_online;
     worker_of := fun i => if (i =? 0)%nat then broken_worker else succeeding_worker;
     completion_order := [];
     retry_choice := None;
     storage := Saved |}.

(** A re-drive in which every target succeeds; the worker at position [i]
    starts [i] seconds after the first. *)
Definition staggered_round : world :=
  {| describe_instance_information := all_online;
     worker_of := fun i =>
       {| started_at := 60000 + 1000 * Z.of_nat i; client := ClientOk always_succeeding |};
     completion_order := [];
     retry_choice := None;
     storage := Saved |}.

(** A first pass in which every target fails in every attempt; the user
    then asks for the re-drive. *)
Definition failing_round : world :=
  {| describe_instance_information := all_online;
     worker_of := fun _ => failing_worker;
     completion_order := [];
     retry_choice := Some staggered_round;
     storage := Saved |}.

Definition slow_fetch : unit -> Cache.fetch_result nat := fun _ => Cache.Fetched 42%nat.

Definition broken_fetch : unit -> Cache.fetch_result nat :=
  fun _ => Cache.FetchRaised "boom".

Definition new_manager : BatchJobManager :=
  {| results_history := []; batch_results_file := NoFile |}.

End Scenarios.

(** ** The cache keys of the callers *)

Module Keys.

(** The keys that the methods of [AWSManager] build with f-strings. *)
Definition regions_key (profile : string) : string := "regions_" +:+ profile.

Definition instances_key (profile region : string) : string :=
  "instances_" +:+ profile +:+ "_" +:+ region.

Definition ssm_key (profile region tags : string) : string :=
  "ssm_" +:+ profile +:+ "_" +:+ region +:+ "_" +:+ tags.

Definition rds_key (profile region : string) : string :=
  "rds_" +:+ profile +:+ "_" +:+ region.

Definition cache_key (profile region : string) : string :=
  "cache_" +:+ profile +:+ "_" +:+ region.

Definition ecs_clusters_key (profile region : string) : string :=
  "ecs_clusters_" +:+ profile +:+ "_" +:+ region.

Definition ecs_services_key (profile region cluster_name : string) : string :=
  "ecs_services_" +:+ profile +:+ "_" +:+ region +:+ "_" +:+ cluster_name.

Definition eks_clusters_key (profile region : string) : string :=
  "eks_clusters_" +:+ profile +:+ "_" +:+ region.

Definition eks_nodegroups_key (profile region cluster_name : string) : string :=
  "eks_nodegroups_" +:+ profile +:+ "_" +:+ region +:+ "_" +:+ cluster_name.

Definition eks_fargate_key (profile region cluster_name : string) : string :=
  "eks_fargate_" +:+ profile +:+ "_" +:+ region +:+ "_" +:+ cluster_name.

Definition cw_dashboards_key (profile region : string) : string :=
  "cw_dashboards_" +:+ profile +:+ "_" +:+ region.

Definition cw_alarms_key (profile region state : string) : string :=
  "cw_alarms_" +:+ profile +:+ "_" +:+ region +:+ "_" +:+ state.

Definition cw_log_groups_key (profile region prefix : string) : string :=
  "cw_log_groups_" +:+ profile +:+ "_" +:+ region +:+ "_" +:+ prefix.

Definition lambda_functions_key (profile region : string) : string :=
  "lambda_functions_" +:+ profile +:+ "_" +:+ region.

Definition s3_buckets_key (profile : string) : string := "s3_buckets_" +:+ profile.

End Keys.

(** ** AWSManager: listing the instances of a region *)

Module Clients.

Import Cache Keys.

Section EC2.

(** An instance dict of [describe_instances]. *)
Context {X : Type}.

(** The parts of a [describe_instances] response that are read:
    [resp.get('Reservations', [])] with the [Instances] of each reservation,
    and [resp.get('NextToken')]. *)
Record page := mkPage {
  Reservations : list (list X);
  NextToken : option string
}.

Inductive describe_instances_reply :=
| DescribePage (resp : page)
| DescribeClientError (e : string)
| DescribeOtherError (e : string).

(** What [_fetch_instances] writes to the log: the two warnings and the
    error of a failed call. *)
Inductive fetch_warning :=
| DuplicateToken
| PageLimit
| ListInstancesFailed (e : string).

(** Python's truth value of [next_token]: [None] and [''] are false. *)
Definition truthy (next_token : option string) : option string :=
  match next_token with
  | Some EmptyString => None
  | other => other
  end.

(** How the [while page_count < max_pages] loop is left: normally, with
    the instances collected, the page count, the requests made (the
    [NextToken] parameter of each) and whether a token came twice; or by an
    exception of [describe_instances]. *)
Inductive pages_exit :=
| PagesDone (insts : list X) (page_count : nat) (requests : list (option string))
    (duplicate : bool)
| PagesClientError (e : string) (requests : list (option string))
| PagesOtherError (e : string) (requests : list (option string)).

Definition max_pages : nat := 100.

(** The loop of [_fetch_instances]; [remaining] is [max_pages - page_count]
    and [describe_instances k token] is the reply to the call number [k]
    (from 0) with that token. *)
Fixpoint fetch_pages (describe_instances : nat -> option string -> describe_instances_reply)
    (remaining : nat) (next_token : option string) (seen_tokens : list string)
    (insts : list X) (requests : list (option string)) : pages_exit :=
  match remaining with
  | O => PagesDone insts max_pages requests false
  | S remaining' =>
      let page_count := (max_pages - remaining')%nat in
      let go (seen_tokens : list string) (params : option string) :=
        match describe_instances (length requests) params with
        | DescribePage resp =>
            let insts := insts ++ concat (Reservations resp) in
            let requests := requests ++ [params] in
            match truthy (NextToken resp) with
            | None => PagesDone insts page_count requests false
            | Some token =>
                fetch_pages describe_instances remaining' (Some token) seen_tokens
                  insts requests
            end
        | DescribeClientError e => PagesClientError e (requests ++ [params])
        | DescribeOtherError e => PagesOtherError e (requests ++ [params])
        end in
      match truthy next_token with
      | Some token =>
          if bool_decide (token ∈ seen_tokens)
          then PagesDone insts page_count requests true
          else go (token :: seen_tokens) (Some token)
      | None => go seen_tokens None
      end
  end.

Record fetched := mkFetched {
  result : fetch_result (list X);
  requests_made : list (option string);
  logged : list fetch_warning
}.

(** [_fetch_instances]: a [ClientError] is logged and answered with the
    empty list; any other exception leaves the method. *)
Definition _fetch_instances
    (describe_instances : nat -> option string -> describe_instances_reply) : fetched :=
  match fetch_pages describe_instances max_pages None [] [] [] with
  | PagesDone insts page_count requests duplicate =>
      {| result := Fetched insts;
         requests_made := requests;
         logged := (if duplicate then [DuplicateToken] else [])
                   ++ (if (max_pages <=? page_count)%nat then [PageLimit] else []) |}
  | PagesClientError e requests =>
      {| result := Fetched []; requests_made := requests;
         logged := [ListInstancesFailed e] |}
  | PagesOtherError e requests =>
      {| result := FetchRaised e; requests_made := requests; logged := [] |}
  end.

(** [list_instances]: [fetch] stands for [self._fetch_instances] applied to
    the region; [now_get] and [now_set] are the clock readings of the [get]
    and of the [set]. The answer is a list, or the exception that
    [_fetch_instances] let through. *)
Definition list_instances (profile region : string) (force_refresh : bool)
    (fetch : unit -> fetch_result (list X)) (now_get now_set : Z)
    (sys : system (list X)) : fetch_result (list X) * system (list X) :=
  let cache_key := instances_key profile region in
  let cached_data :=
    if force_refresh then None
    else
      match fst (get cache_key now_get (cache sys)) with
      | Some (x :: rest) => Some (x :: rest)
      | _ => None
      end in
  match cached_data with
  | Some cached_data =>
      (Fetched cached_data, start_background_refresh cache_key fetch sys)
  | None =>
      match fetch tt with
      | Fetched instances =>
          (Fetched instances, with_cache (set cache_key instances None now_set) sys)
      | FetchRaised e => (FetchRaised e, sys)
      end
  end.

(** The instances of all pages that a sequence of requests got. *)
Definition pages_of
    (describe_instances : nat -> option string -> describe_instances_reply)
    (requests : list (option string)) : list X :=
  concat
    (imap (fun k params =>
             match describe_instances k params with
             | DescribePage resp => concat (Reservations resp)
             | _ => []
             end) requests).

(** The shape of the requests of one run: the first one carries no token,
    no request is made twice, and the empty token is never sent. *)
Definition well_formed (requests : list (option string)) : Prop :=
  head requests = Some None /\ NoDup requests /\ Some "" ∉ requests.

(** Every request of the list was answered with a page. *)
Definition all_pages
    (describe_instances : nat -> option string -> describe_instances_reply)
    (requests : list (option string)) : Prop :=
  forall k params, requests !! k = Some params ->
    exists resp, describe_instances k params = DescribePage resp.

End EC2.

Arguments page : clear implicits.
Arguments describe_instances_reply : clear implicits.
Arguments pages_exit : clear implicits.
Arguments fetched : clear implicits.

(** A service that hands out a fresh token with every page, without end. *)
Definition endless (k : nat) (token : option string) : describe_instances_reply nat :=
  DescribePage {| Reservations := [[k]]; NextToken := Some (pretty k) |}.

(** A service that keeps handing out the same token. *)
Definition stuck (k : nat) (token : option string) : describe_instances_reply nat :=
  DescribePage {| Reservations := [[k]]; NextToken := Some "again" |}.

(** Exactly [max_pages] pages: the last one carries no token. *)
Definition hundred_pages (k : nat) (token : option string) : describe_instances_reply nat :=
  DescribePage {| Reservations := [[k]];
                  NextToken := if (k <? 99)%nat then Some (pretty k) else None |}.

(** Two pages, then an access error. *)
Definition breaks_off (k : nat) (token : option string) : describe_instances_reply nat :=
  if (k <? 2)%nat
  then DescribePage {| Reservations := [[k]]; NextToken := Some (pretty k) |}
  else DescribeClientError "UnauthorizedOperation".

(** The credentials do not allow the call. *)
Definition refused (k : nat) (token : option string) : describe_instances_reply nat :=
  DescribeClientError "AuthFailure".

(** A process that has just listed one region for the profile [dev]. *)
Definition warm : system (list nat) :=
  with_cache (set (instances_key "dev" "ap-northeast-2") [7%nat] None 0) init_system.

End Clients.

(** ** Counting in schedules *)

Module Schedules.

Import Cache.

(** The calls of [start_background_refresh] for [key] in a schedule. *)
Definition starts_of {Any : Type} (key : string) (schedule : list (action Any)) : nat :=
  length (List.filter (starts_key key) schedule).

End Schedules.

(** ** What a worker's trace shows *)

Module Observe.

Import Batch.

(** The number of status queries made in attempt [attempt]. *)
Definition polls_of (attempt : nat) (tr : list event) : nat :=
  length (List.filter (fun p => (fst p =? attempt)%nat) (polls_made tr)).

(** The seconds slept, in order. *)
Definition sleeps (tr : list event) : list Z :=
  flat_map (fun ev => match ev with Sleep seconds => [seconds] | _ => [] end) tr.

(** A remote side on which a command, once sent, never reaches a terminal
    status. *)
Definition never_terminal (ssm : ssm_client) (attempt : nat) : Prop :=
  forall attempt_count, exists latency result,
    get_command_invocation ssm attempt attempt_count = (latency, PollOk result) /\
    str_in (Status result) terminal_statuses = false.

(** What a SUCCESS result of attempt [attempt] carries: no error text, and
    the stripped standard output of a status reply that said [Success]. *)
Definition success_of (ssm : ssm_client) (attempt : nat) (r : BatchJobResult) : Prop :=
  error r = "" /\
  exists attempt_count latency result,
    get_command_invocation ssm attempt attempt_count = (latency, PollOk result) /\
    Status result = "Success" /\
    output r = PyStr.strip (StandardOutputContent result).

(** A target on which every command stays [InProgress]. *)
Definition always_running : ssm_client :=
  {| send_command := fun _ => (0, SendOk "c-1");
     get_command_invocation := fun _ _ =>
       (0, PollOk {| Status := "InProgress"; StandardOutputContent := "";
                     StandardErrorContent := ""; StatusDetails := "InProgress" |}) |}.

(** The instances of one region. *)
Definition same_region (region : string) (inst : instance_data) : bool :=
  String.eqb (region_of inst) region.

(** [regions_to_check] after the instances [processed] have been grouped:
    one group per region, each holding the instances of its region in their
    order. *)
Definition grouped (groups : list (string * list instance_data))
    (processed : list instance_data) : Prop :=
  List.NoDup (map fst groups) /\
  (forall r g, In (r, g) groups -> g = List.filter (same_region r) processed) /\
  (forall inst, In inst processed -> In (region_of inst) (map fst groups)).

(** What the validation keeps of the group of one region. *)
Definition kept (describe : string -> list string -> describe_reply)
    (group : string * list instance_data) : list instance_data :=
  match describe (fst group) (map InstanceId (snd group)) with
  | DescribeOk infos =>
      List.filter (fun inst => str_in (InstanceId inst) (online_instances infos)) (snd group)
  | DescribeRaises _ => snd group
  end.

(** The status service knows no instance that is online. *)
Definition nothing_online (region : string) (ids : list string) : describe_reply :=
  DescribeOk (map (fun id => (id, "ConnectionLost")) ids).

(** The status service cannot be reached. *)
Definition status_unavailable (region : string) (ids : list string) : describe_reply :=
  DescribeRaises "Could not connect to the endpoint URL".

(** A call in which no target is reachable. *)
Definition offline_round : world :=
  {| describe_instance_information := nothing_online;
     worker_of := fun _ => Scenarios.failing_worker;
     completion_order := [];
     retry_choice := Some Scenarios.second_round;
     storage := Saved |}.

(** A first pass in which every target fails and the user declines the
    re-drive. *)
Definition declined_round : world :=
  {| describe_instance_information := Scenarios.all_online;
     worker_of := fun _ => Scenarios.failing_worker;
     completion_order := [];
     retry_choice := None;
     storage := Saved |}.

End Observe.

(** * The cache *)

Module CacheTheory.

Import Cache.

Section Entries.

Context {Any : Type}.
Implicit Types (self : PerformanceCache Any) (entry : CacheEntry Any).

Lemma is_expired_spec now entry :
  is_expired now entry = true <->
  now - timestamp entry > timedelta_seconds (ttl_seconds entry).
Proof.
  unfold is_expired. rewrite Z.gtb_ltb, Z.ltb_lt. lia.
Qed.

Lemma is_expired_false now entry :
  is_expired now entry = false <->
  now - timestamp entry <= timedelta_seconds (ttl_seconds entry).
Proof.
  unfold is_expired. rewrite Z.gtb_ltb, Z.ltb_ge. lia.
Qed.

Lemma get_state key now self : snd (get key now self) = self.
Proof.
  unfold get. destruct (_cache self !! key) as [entry|]; [|reflexivity].
  destruct (negb (is_expired now entry)); reflexivity.
Qed.

Lemma get_hit key now self entry :
  _cache self !! key = Some entry ->
  is_expired now entry = false ->
  fst (get key now self) = Some (data entry).
Proof. intros Hk He. unfold get. rewrite Hk, He. reflexivity. Qed.

Lemma get_expired key now self entry :
  _cache self !! key = Some entry ->
  is_expired now entry = true ->
  fst (get key now self) = None.
Proof. intros Hk He. unfold get. rewrite Hk, He. reflexivity. Qed.

Lemma get_absent key now self :
  _cache self !! key = None -> fst (get key now self) = None.
Proof. intros Hk. unfold get. rewrite Hk. reflexivity. Qed.

Lemma set_lookup key v ttl now self :
  _cache (set key v ttl now self) !! key =
  Some (mkCacheEntry v now (match ttl with Some t => t | None => _get_ttl_for_key key end)).
Proof. unfold set. cbn. apply lookup_insert_eq. Qed.

Lemma get_after_set key v T now now' self :
  fst (get key now' (set key v (Some T) now self)) =
  if now' - now >? timedelta_seconds T then None else Some v.
Proof.
  unfold get. rewrite set_lookup. unfold is_expired. cbn.
  destruct (now' - now >? timedelta_seconds T); reflexivity.
Qed.

(** C4. Cache TTL: right after [set(key, v, ttl=T)] (and at any later time
    at which no more than [T] seconds have passed) [get(key)] returns [v];
    once more than [T] seconds have passed it returns nothing; an entry is
    expired exactly when [now - timestamp > ttl], and [get] never returns an
    expired entry. [T] is a duration, so it is not negative. *)
Theorem C4_cache_ttl (key : string) (v : Any) (T now : Z) self :
  0 <= T ->
  fst (get key now (set key v (Some T) now self)) = Some v /\
  (forall now', now' - now <= timedelta_seconds T ->
     fst (get key now' (set key v (Some T) now self)) = Some v) /\
  (forall now', now' - now > timedelta_seconds T ->
     fst (get key now' (set key v (Some T) now self)) = None) /\
  (forall now' entry,
     is_expired now' entry = true <->
     now' - timestamp entry > timedelta_seconds (ttl_seconds entry)) /\
  (forall key' now' self' entry,
     _cache self' !! key' = Some entry ->
     is_expired now' entry = true ->
     fst (get key' now' self') = None).
Proof.
  intros HT. repeat split.
  - rewrite get_after_set.
    replace (now - now >? timedelta_seconds T) with false; [reflexivity|].
    symmetry. rewrite Z.gtb_ltb, Z.ltb_ge. unfold timedelta_seconds. lia.
  - intros now' Hle. rewrite get_after_set.
    replace (now' - now >? timedelta_seconds T) with false; [reflexivity|].
    symmetry. rewrite Z.gtb_ltb, Z.ltb_ge. lia.
  - intros now' Hgt. rewrite get_after_set.
    replace (now' - now >? timedelta_seconds T) with true; [reflexivity|].
    symmetry. rewrite Z.gtb_ltb, Z.ltb_lt. lia.
  - apply is_expired_spec.
  - apply is_expired_spec.
  - intros key' now' self' entry. apply get_expired.
Qed.

End Entries.

Lemma C4_cache_ttl_witness :
  0 <= 120 /\
  fst (get "instances_p_r1" 5 (set "instances_p_r1" 7%nat (Some 120) 5 new_cache)) = Some 7%nat.
Proof.
  split; [lia|].
  exact (proj1 (C4_cache_ttl "instances_p_r1" 7%nat 120 5 new_cache ltac:(lia))).
Defined.

Section Policy.

Lemma split_head sep s :
  hd EmptyString (PyStr.split sep s) = PyStr.before_first sep s.
Proof.
  induction s as [|d rest IH]; cbn; [reflexivity|].
  destruct (Ascii.eqb d sep); [reflexivity|].
  destruct (PyStr.split sep rest) as [|piece pieces]; cbn in *; congruence.
Qed.

Lemma default_ttl : Config.CACHE_TTLS !!! "default" = Config.CACHE_TTL_SECONDS.
Proof. vm_compute. reflexivity. Qed.

Lemma _get_ttl_for_key_resolve key : _get_ttl_for_key key = resolve_from_policy key.
Proof.
  unfold _get_ttl_for_key, resolve_from_policy. rewrite default_ttl.
  destruct (PyStr.contains "_" key).
  - rewrite split_head.
    destruct (Config.CACHE_TTLS !! PyStr.lower (PyStr.before_first "_" key)); reflexivity.
  - vm_compute. reflexivity.
Qed.

Lemma contains_app_sep a rest : PyStr.contains "_" (a +:+ String "_" rest) = true.
Proof.
  induction a as [|d a IH].
  - reflexivity.
  - change (String d a +:+ String "_" rest) with (String d (a +:+ String "_" rest)).
    cbn [PyStr.contains]. destruct (Ascii.eqb d "_"); [reflexivity | exact IH].
Qed.

(** C6. TTL policy resolution: [set(key, value)] without a ttl stores the
    TTL that the policy gives to the text of the key before the first ['_'],
    lowercased; the default TTL is used when that prefix is not a policy
    class, when the key has no separator, and when the key starts with a
    resource-class name that itself contains the separator. *)
Theorem C6_ttl_policy_resolution {Any : Type} (key : string) (v : Any) (now : Z)
    (self : PerformanceCache Any) :
  _cache (set key v None now self) !! key
    = Some (mkCacheEntry v now (resolve_from_policy key)) /\
  (PyStr.contains "_" key = false ->
     resolve_from_policy key = Config.CACHE_TTL_SECONDS) /\
  (Config.CACHE_TTLS !! PyStr.lower (PyStr.before_first "_" key) = None ->
     resolve_from_policy key = Config.CACHE_TTL_SECONDS) /\
  (forall class ttl rest,
     In (class, ttl) Config.CACHE_TTLS_items ->
     PyStr.contains "_" class = true ->
     resolve_from_policy (class +:+ String "_" rest) = Config.CACHE_TTL_SECONDS) /\
  Config.CACHE_TTLS !! "default" = Some Config.CACHE_TTL_SECONDS.
Proof.
  split; [|split; [|split; [|split]]].
  - rewrite set_lookup, _get_ttl_for_key_resolve. reflexivity.
  - intros Hno. unfold resolve_from_policy. rewrite Hno. reflexivity.
  - intros Hnone. unfold resolve_from_policy. rewrite Hnone.
    destruct (PyStr.contains "_" key); reflexivity.
  - intros class ttl rest Hin Hsep.
    unfold Config.CACHE_TTLS_items in Hin. cbn [In] in Hin.
    repeat (destruct Hin as [Hin|Hin];
            [injection Hin as <- <-; first [discriminate Hsep | vm_compute; reflexivity]|]).
    destruct Hin.
  - vm_compute. reflexivity.
Qed.

Lemma C6_ttl_policy_resolution_witness :
  resolve_from_policy "regions" = 300 /\
  resolve_from_policy ("cloudwatch_dashboards" +:+ String "_" "prod_r1") = 300 /\
  resolve_from_policy "Instances_prod_r1" = 120.
Proof.
  pose proof (C6_ttl_policy_resolution "regions" tt 0 new_cache) as (_ & Hno & _ & Hcls & _).
  split; [|split].
  - apply Hno. reflexivity.
  - apply (Hcls "cloudwatch_dashboards" 600 "prod_r1").
    + cbn. tauto.
    + reflexivity.
  - reflexivity.
Defined.

End Policy.

Section Refresh.

Context {Any : Type}.
Implicit Types (sys : system Any) (w : worker Any) (a : action Any).

Lemma in_flight_true key sys :
  in_flight key sys = true <-> key ∈ dom (_background_refresh_active (cache sys)).
Proof. unfold in_flight. apply bool_decide_eq_true. Qed.

Lemma in_flight_false key sys :
  in_flight key sys = false <-> key ∉ dom (_background_refresh_active (cache sys)).
Proof. unfold in_flight. apply bool_decide_eq_false. Qed.

Lemma start_in_flight key f sys :
  in_flight key sys = true -> start_background_refresh key f sys = sys.
Proof. intros H. unfold start_background_refresh. rewrite H. reflexivity. Qed.

Lemma start_marks key f sys :
  in_flight key (start_background_refresh key f sys) = true.
Proof.
  unfold start_background_refresh.
  destruct (in_flight key sys) eqn:E; [exact E|].
  apply in_flight_true. cbn. rewrite dom_insert_L. set_solver.
Qed.

(** *** The entries map is written by [set], [invalidate] and [clear] only *)

Lemma step_frame key a sys :
  writes_key key a sys = false ->
  _cache (cache (step a sys)) !! key = _cache (cache sys) !! key.
Proof.
  destruct a as [k now|k v ttl now|k| |k f|i now]; cbn; intros Hw.
  - rewrite get_state. reflexivity.
  - apply bool_decide_eq_false in Hw. apply lookup_insert_ne. exact Hw.
  - apply bool_decide_eq_false in Hw. apply lookup_delete_ne. exact Hw.
  - discriminate.
  - unfold start_background_refresh. destruct (in_flight k sys); reflexivity.
  - unfold refresh_worker_step.
    destruct (threads sys !! i) as [w|]; [|reflexivity].
    destruct (w_pc w) as [|[d|e]|]; cbn; try reflexivity.
    apply bool_decide_eq_false in Hw. apply lookup_insert_ne. exact Hw.
Qed.

Lemma failed_worker_step i now sys w :
  threads sys !! i = Some w ->
  fetch_failed w = true ->
  _cache (cache (step (StepWorker i now) sys)) = _cache (cache sys).
Proof.
  intros Hi Hf. cbn. unfold refresh_worker_step. rewrite Hi.
  unfold fetch_failed in Hf.
  destruct (w_pc w) as [|[d|e]|]; cbn; try reflexivity. discriminate.
Qed.

(** *** Consistency is kept by every transition *)

Lemma thread_keys_insert i w w' sys (l : list (worker Any)) :
  l !! i = Some w -> w_key w' = w_key w ->
  map w_key (<[i := w']> l) = map w_key l.
Proof.
  intros Hi Hk. rewrite list_fmap_insert, Hk.
  apply list_insert_id. rewrite list_lookup_fmap, Hi. reflexivity.
Qed.

Lemma consistent_init : consistent (@init_system Any).
Proof.
  split; cbn; [constructor|].
  intros k. rewrite dom_empty_L. set_solver.
Qed.

Lemma consistent_with_cache f sys :
  (forall c, _background_refresh_active (f c) = _background_refresh_active c) ->
  consistent sys -> consistent (with_cache f sys).
Proof.
  intros Hf [Hnd Hdom]. split; [exact Hnd|].
  intros k. cbn. rewrite Hf. apply Hdom.
Qed.

Lemma consistent_start key f sys :
  consistent sys -> consistent (start_background_refresh key f sys).
Proof.
  intros [Hnd Hdom]. unfold start_background_refresh.
  destruct (in_flight key sys) eqn:E; [split; assumption|].
  apply in_flight_false in E.
  assert (Hfresh : key ∉ thread_keys sys) by (rewrite <- Hdom; exact E).
  split; unfold thread_keys in *; cbn.
  - rewrite map_app. cbn. apply NoDup_app. split; [exact Hnd|]. split.
    + intros k Hk Hk'. apply list_elem_of_singleton in Hk'. subst. contradiction.
    + apply NoDup_singleton.
  - intros k. rewrite dom_insert_L, map_app. cbn.
    rewrite elem_of_app, list_elem_of_singleton, elem_of_union, elem_of_singleton.
    rewrite Hdom. tauto.
Qed.

Lemma consistent_worker_step i now sys :
  consistent sys -> consistent (refresh_worker_step i now sys).
Proof.
  intros [Hnd Hdom]. unfold refresh_worker_step.
  destruct (threads sys !! i) as [w|] eqn:Hi; [|split; assumption].
  destruct (w_pc w) as [|[d|e]|] eqn:Hpc; unfold consistent, thread_keys in *; cbn.
  - rewrite (thread_keys_insert i w _ sys) by (assumption || reflexivity). split; assumption.
  - rewrite (thread_keys_insert i w _ sys) by (assumption || reflexivity). split; assumption.
  - rewrite (thread_keys_insert i w _ sys) by (assumption || reflexivity). split; assumption.
  - pose proof (take_drop_middle _ _ _ Hi) as Hsplit.
    rewrite <- Hsplit in Hnd, Hdom.
    rewrite map_app in Hnd, Hdom. cbn in Hnd, Hdom.
    rewrite delete_take_drop, map_app.
    apply NoDup_app in Hnd as (Hnd1 & Hdisj & Hnd2).
    apply NoDup_cons in Hnd2 as (Hnotin & Hnd2).
    split.
    + apply NoDup_app. split; [exact Hnd1|]. split; [|exact Hnd2].
      intros k Hk Hk'. apply (Hdisj k Hk). right. exact Hk'.
    + intros k. rewrite dom_delete_L, elem_of_difference, elem_of_singleton, Hdom.
      rewrite !elem_of_app, elem_of_cons.
      split.
      * intros [[H1|[->|H2]] Hne]; [left; exact H1 | contradiction | right; exact H2].
      * intros [H1|H2].
        -- split; [left; exact H1|]. intros ->. apply (Hdisj _ H1). left.
        -- split; [right; right; exact H2|]. intros ->. contradiction.
Qed.

Lemma consistent_step a sys : consistent sys -> consistent (step a sys).
Proof.
  destruct a as [k now|k v ttl now|k| |k f|i now]; cbn.
  - apply consistent_with_cache. intros c. rewrite get_state. reflexivity.
  - apply consistent_with_cache. reflexivity.
  - apply consistent_with_cache. reflexivity.
  - apply consistent_with_cache. reflexivity.
  - apply consistent_start.
  - apply consistent_worker_step.
Qed.

Lemma consistent_run schedule sys : consistent sys -> consistent (run schedule sys).
Proof.
  revert sys. induction schedule as [|a schedule IH]; intros sys H; cbn; [exact H|].
  apply IH, consistent_step, H.
Qed.

(** *** Every refresh thread calls its fetch function once *)

Lemma count_key_snoc key log k :
  count_key key (log ++ [k]) =
  (count_key key log + (if bool_decide (k = key) then 1 else 0))%nat.
Proof.
  unfold count_key. rewrite filter_app, length_app. f_equal.
  rewrite filter_cons, filter_nil.
  destruct (decide (k = key)) as [Heq|Hne].
  - rewrite bool_decide_eq_true_2 by exact Heq. reflexivity.
  - rewrite bool_decide_eq_false_2 by exact Hne. reflexivity.
Qed.

Lemma pending_insert key i w w' (l : list (worker Any)) :
  l !! i = Some w ->
  (length (List.filter (not_fetched_yet key) (<[i := w']> l))
     + (if not_fetched_yet key w then 1 else 0)
   = length (List.filter (not_fetched_yet key) l)
     + (if not_fetched_yet key w' then 1 else 0))%nat.
Proof.
  intros Hi.
  rewrite insert_take_drop by (eapply lookup_lt_Some; exact Hi).
  rewrite <- (take_drop_middle _ _ _ Hi) at 3.
  rewrite !List.filter_app, !length_app. cbn [List.filter].
  destruct (not_fetched_yet key w), (not_fetched_yet key w'); cbn [length]; lia.
Qed.

Lemma pending_delete key i w (l : list (worker Any)) :
  l !! i = Some w ->
  not_fetched_yet key w = false ->
  length (List.filter (not_fetched_yet key) (delete i l))
  = length (List.filter (not_fetched_yet key) l).
Proof.
  intros Hi Hw.
  rewrite delete_take_drop.
  rewrite <- (take_drop_middle _ _ _ Hi) at 3.
  rewrite !List.filter_app, !length_app. cbn [List.filter]. rewrite Hw. reflexivity.
Qed.

Lemma balance_worker_step key i now sys :
  fetch_balance key (refresh_worker_step i now sys) = fetch_balance key sys.
Proof.
  unfold refresh_worker_step.
  destruct (threads sys !! i) as [w|] eqn:Hi; [|reflexivity].
  unfold fetch_balance, pending_fetches.
  destruct (w_pc w) as [|[d|e]|] eqn:Hpc; cbn [fetch_calls threads].
  - rewrite count_key_snoc.
    pose proof (pending_insert key i w
                  (mkWorker (w_key w) (w_func w) (WFetched (w_func w tt))) _ Hi) as Hp.
    unfold not_fetched_yet in Hp at 2 4. rewrite Hpc in Hp. cbn in Hp.
    rewrite andb_false_r, andb_true_r in Hp.
    destruct (bool_decide (w_key w = key)); lia.
  - pose proof (pending_insert key i w (mkWorker (w_key w) (w_func w) WFinally) _ Hi) as Hp.
    unfold not_fetched_yet in Hp at 2 4. rewrite Hpc in Hp. cbn in Hp.
    rewrite !andb_false_r in Hp. lia.
  - pose proof (pending_insert key i w (mkWorker (w_key w) (w_func w) WFinally) _ Hi) as Hp.
    unfold not_fetched_yet in Hp at 2 4. rewrite Hpc in Hp. cbn in Hp.
    rewrite !andb_false_r in Hp. lia.
  - rewrite (pending_delete key i w); [reflexivity | exact Hi |].
    unfold not_fetched_yet. rewrite Hpc. apply andb_false_r.
Qed.

Lemma balance_start_other key k f sys :
  k <> key ->
  fetch_balance key (start_background_refresh k f sys) = fetch_balance key sys.
Proof.
  intros Hne. unfold start_background_refresh.
  destruct (in_flight k sys); [reflexivity|].
  unfold fetch_balance, pending_fetches. cbn [fetch_calls threads].
  rewrite List.filter_app, length_app. cbn [List.filter].
  unfold not_fetched_yet at 2. cbn [w_key w_pc].
  rewrite bool_decide_eq_false_2 by exact Hne. cbn. lia.
Qed.

Lemma balance_start key f sys :
  in_flight key sys = false ->
  fetch_balance key (start_background_refresh key f sys) = S (fetch_balance key sys).
Proof.
  intros Hout. unfold start_background_refresh. rewrite Hout.
  unfold fetch_balance, pending_fetches. cbn [fetch_calls threads].
  rewrite List.filter_app, length_app. cbn [List.filter].
  unfold not_fetched_yet at 2. cbn [w_key w_pc].
  rewrite bool_decide_eq_true_2 by reflexivity. cbn. lia.
Qed.

Lemma balance_step key a sys :
  starts_key key a = false ->
  fetch_balance key (step a sys) = fetch_balance key sys.
Proof.
  destruct a as [k now|k v ttl now|k| |k f|i now]; cbn; intros Hs;
    try reflexivity.
  - apply balance_start_other. apply bool_decide_eq_false in Hs. exact Hs.
  - apply balance_worker_step.
Qed.

Lemma balance_run key schedule sys :
  forallb (fun a => negb (starts_key key a)) schedule = true ->
  fetch_balance key (run schedule sys) = fetch_balance key sys.
Proof.
  revert sys. induction schedule as [|a schedule IH]; intros sys Hs; [reflexivity|].
  cbn in Hs. apply andb_true_iff in Hs as [Ha Hs].
  change (run (a :: schedule) sys) with (run schedule (step a sys)).
  rewrite IH by exact Hs. apply balance_step. apply negb_true_iff. exact Ha.
Qed.

Lemma no_pending_when_idle key sys :
  consistent sys -> in_flight key sys = false -> pending_fetches key sys = 0%nat.
Proof.
  intros [_ Hdom] Hout. apply in_flight_false in Hout.
  rewrite Hdom in Hout. unfold thread_keys in Hout.
  unfold pending_fetches.
  induction (threads sys) as [|w l IH]; [reflexivity|].
  cbn in Hout. rewrite not_elem_of_cons in Hout. destruct Hout as [Hne Hout].
  cbn. unfold not_fetched_yet at 1.
  rewrite bool_decide_eq_false_2 by congruence. cbn. apply IH, Hout.
Qed.

(** C3. No duplicate refresh: when [key] is marked in flight,
    [start_background_refresh(key, f)] changes nothing: no call of [f], no
    new thread, the entries map and the in-flight marks as they were. Hence
    two calls for the same key, the second made while the refresh started by
    the first is still running, lead to exactly one call of the fetch
    function for that key by the time the refresh has completed. *)
Theorem C3_no_duplicate_refresh (key : string)
    (f g : unit -> fetch_result Any) sys (before after : list (action Any)) :
  (in_flight key sys = true -> start_background_refresh key f sys = sys) /\
  (consistent sys ->
   in_flight key sys = false ->
   forallb (fun a => negb (starts_key key a)) before = true ->
   forallb (fun a => negb (starts_key key a)) after = true ->
   let first := run before (start_background_refresh key f sys) in
   in_flight key first = true ->
   let second := start_background_refresh key g first in
   second = first /\
   (in_flight key (run after second) = false ->
    count_key key (fetch_calls (run after second))
    = S (count_key key (fetch_calls sys)))).
Proof.
  split; [apply start_in_flight|].
  intros Hc Hidle Hbefore Hafter first Hrunning second.
  assert (Hsame : second = first) by (apply start_in_flight, Hrunning).
  split; [exact Hsame|].
  intros Hdone.
  assert (Hbal : fetch_balance key (run after second) = S (fetch_balance key sys)).
  { rewrite balance_run by exact Hafter. rewrite Hsame. unfold first.
    rewrite balance_run by exact Hbefore. apply balance_start, Hidle. }
  unfold fetch_balance in Hbal.
  rewrite (no_pending_when_idle key sys Hc Hidle) in Hbal.
  rewrite (no_pending_when_idle key (run after second)) in Hbal; [lia| |exact Hdone].
  apply consistent_run. rewrite Hsame. unfold first.
  apply consistent_run, consistent_start, Hc.
Qed.

Lemma delete_insert_same {A} i (x : A) (l : list A) :
  delete i (<[i := x]> l) = delete i l.
Proof.
  revert i. induction l as [|y l IH]; intros [|i]; cbn; try reflexivity.
  f_equal. apply IH.
Qed.

Lemma worker_step_at i now w sys :
  threads sys !! i = Some w ->
  refresh_worker_step i now sys =
  match w_pc w with
  | WStart =>
      {| cache := cache sys;
         threads :=
           <[i := mkWorker (w_key w) (w_func w) (WFetched (w_func w tt))]> (threads sys);
         fetch_calls := fetch_calls sys ++ [w_key w];
         warnings := warnings sys |}
  | WFetched (Fetched new_data) =>
      {| cache := set (w_key w) new_data None now (cache sys);
         threads := <[i := mkWorker (w_key w) (w_func w) WFinally]> (threads sys);
         fetch_calls := fetch_calls sys;
         warnings := warnings sys |}
  | WFetched (FetchRaised e) =>
      {| cache := cache sys;
         threads := <[i := mkWorker (w_key w) (w_func w) WFinally]> (threads sys);
         fetch_calls := fetch_calls sys;
         warnings :=
           warnings sys ++ ["백그라운드 새로고침 실패 (" +:+ w_key w +:+ "): " +:+ e] |}
  | WFinally =>
      {| cache := pop_active (w_key w) (cache sys);
         threads := delete i (threads sys);
         fetch_calls := fetch_calls sys;
         warnings := warnings sys |}
  end.
Proof. intros Hi. unfold refresh_worker_step. rewrite Hi. reflexivity. Qed.

Lemma worker_three_steps i w t1 t2 t3 sys :
  threads sys !! i = Some w ->
  w_pc w = WStart ->
  let s3 := run [StepWorker i t1; StepWorker i t2; StepWorker i t3] sys in
  threads s3 = delete i (threads sys) /\
  fetch_calls s3 = fetch_calls sys ++ [w_key w] /\
  _background_refresh_active (cache s3)
    = delete (w_key w) (_background_refresh_active (cache sys)) /\
  match w_func w tt with
  | Fetched d =>
      _cache (cache s3)
        = <[w_key w := mkCacheEntry d t2 (_get_ttl_for_key (w_key w))]> (_cache (cache sys)) /\
      warnings s3 = warnings sys
  | FetchRaised e =>
      _cache (cache s3) = _cache (cache sys) /\
      warnings s3
        = warnings sys ++ ["백그라운드 새로고침 실패 (" +:+ w_key w +:+ "): " +:+ e]
  end.
Proof.
  intros Hi Hpc.
  assert (Hlt : (i < length (threads sys))%nat) by (eapply lookup_lt_Some; exact Hi).
  cbn [run fold_left step].
  remember (refresh_worker_step i t1 sys) as s1 eqn:E1.
  rewrite (worker_step_at i t1 w sys Hi), Hpc in E1.
  assert (H1 : threads s1 !! i
               = Some (mkWorker (w_key w) (w_func w) (WFetched (w_func w tt)))).
  { subst s1. cbn. apply list_lookup_insert_eq, Hlt. }
  remember (refresh_worker_step i t2 s1) as s2 eqn:E2.
  rewrite (worker_step_at i t2 _ s1 H1) in E2. cbn [w_pc w_key w_func] in E2.
  assert (H2 : threads s2 !! i = Some (mkWorker (w_key w) (w_func w) WFinally)).
  { subst s2. destruct (w_func w tt); cbn; apply list_lookup_insert_eq;
      subst s1; cbn; rewrite length_insert; exact Hlt. }
  rewrite (worker_step_at i t3 _ s2 H2). cbn [w_pc w_key w_func threads cache fetch_calls warnings].
  destruct (w_func w tt) as [d|e]; subst s2 s1; cbn;
    rewrite !delete_insert_same; repeat split; reflexivity.
Qed.

(** C5. Refresh failure isolation: a refresh thread whose fetch function
    raises ends normally (the exception becomes a warning in the log, the
    caller of [start_background_refresh] sees nothing of it), none of its
    transitions writes the entries map, so the entry cached for the key
    before is still returned by [get] until its own TTL has passed; and
    whether the fetch succeeds or raises, the in-flight mark of the key is
    cleared when the thread ends. *)
Theorem C5_refresh_failure_isolation i w (t1 t2 t3 : Z) sys :
  threads sys !! i = Some w ->
  w_pc w = WStart ->
  let key := w_key w in
  let done := run [StepWorker i t1; StepWorker i t2; StepWorker i t3] sys in
  in_flight key done = false /\
  threads done = delete i (threads sys) /\
  (forall e, w_func w tt = FetchRaised e ->
     _cache (cache done) = _cache (cache sys) /\
     (forall now, fst (get key now (cache done)) = fst (get key now (cache sys))) /\
     (forall entry now,
        _cache (cache sys) !! key = Some entry ->
        now - timestamp entry <= timedelta_seconds (ttl_seconds entry) ->
        fst (get key now (cache done)) = Some (data entry)) /\
     warnings done
       = warnings sys ++ ["백그라운드 새로고침 실패 (" +:+ key +:+ "): " +:+ e]) /\
  (forall j now w' sys',
     threads sys' !! j = Some w' ->
     fetch_failed w' = true ->
     _cache (cache (step (StepWorker j now) sys')) = _cache (cache sys')) /\
  (forall key' f sys',
     fetch_calls (start_background_refresh key' f sys') = fetch_calls sys' /\
     warnings (start_background_refresh key' f sys') = warnings sys' /\
     _cache (cache (start_background_refresh key' f sys')) = _cache (cache sys')).
Proof.
  intros Hi Hpc key done.
  destruct (worker_three_steps i w t1 t2 t3 sys Hi Hpc) as (Hth & Hlog & Hact & Hres).
  change (run _ sys) with done in Hth, Hlog, Hact, Hres.
  change (w_key w) with key in Hact, Hres.
  split; [|split; [exact Hth|split; [|split]]].
  - apply in_flight_false. rewrite Hact, dom_delete_L.
    intros [_ Hn]%elem_of_difference. apply Hn, elem_of_singleton. reflexivity.
  - intros e He. rewrite He in Hres. destruct Hres as [Hc Hw].
    assert (Hget : forall now, fst (get key now (cache done)) = fst (get key now (cache sys))).
    { intros now. unfold get. rewrite Hc.
      destruct (_cache (cache sys) !! key) as [entry|]; [|reflexivity].
      destruct (negb (is_expired now entry)); reflexivity. }
    split; [exact Hc|split; [exact Hget|split; [|exact Hw]]].
    intros entry now Hentry Hfresh. rewrite Hget.
    apply get_hit; [exact Hentry|]. apply is_expired_false. exact Hfresh.
  - intros j now w' sys'. apply failed_worker_step.
  - intros key' f sys'. unfold start_background_refresh.
    destruct (in_flight key' sys'); repeat split; reflexivity.
Qed.

(** C10. [get] never removes an entry: [get(key)] leaves the cache as it
    was, also when the entry of [key] has expired (it answers nothing and
    the entry stays in the map); the entry of a key is written only by [set]
    on that key, [invalidate] of that key, or [clear]. *)
Theorem C10_get_never_removes (key : string) (now : Z) (self : PerformanceCache Any) :
  snd (get key now self) = self /\
  (forall entry,
     _cache self !! key = Some entry ->
     is_expired now entry = true ->
     fst (get key now self) = None /\
     _cache (snd (get key now self)) !! key = Some entry) /\
  (forall sys, step (CallGet key now) sys = sys) /\
  (forall a sys,
     writes_key key a sys = false ->
     _cache (cache (step a sys)) !! key = _cache (cache sys) !! key) /\
  (forall v ttl now',
     _cache (set key v ttl now' self) !! key <> None /\
     _cache (invalidate key self) !! key = None /\
     _cache (clear self) !! key = None).
Proof.
  split; [apply get_state|split; [|split; [|split]]].
  - intros entry Hentry Hexp. split; [eapply get_expired; eassumption|].
    rewrite get_state. exact Hentry.
  - intros [c th log warn]. cbn. unfold with_cache. cbn. rewrite get_state. reflexivity.
  - intros a sys. apply step_frame.
  - intros v ttl now'. split; [|split].
    + rewrite set_lookup. discriminate.
    + cbn. apply lookup_delete_eq.
    + cbn. apply lookup_empty.
Qed.

End Refresh.

Lemma C3_no_duplicate_refresh_witness :
  count_key "k"
    (fetch_calls
       (run [StepWorker 0 11; StepWorker 0 12]
          (start_background_refresh "k" Scenarios.slow_fetch
             (run [StepWorker 0 10]
                (start_background_refresh "k" Scenarios.slow_fetch init_system)))))
  = 1%nat.
Proof.
  refine (proj2 (proj2 (C3_no_duplicate_refresh "k" Scenarios.slow_fetch Scenarios.slow_fetch init_system
                    [StepWorker 0 10] [StepWorker 0 11; StepWorker 0 12])
                  consistent_init _ _ _ _) _);
    vm_compute; reflexivity.
Defined.

Lemma C5_refresh_failure_isolation_witness :
  let sys :=
    start_background_refresh "k" Scenarios.broken_fetch
      (with_cache (set "k" 7%nat (Some 60) 0) init_system) in
  fst (get "k" 1000
         (cache (run [StepWorker 0 10; StepWorker 0 11; StepWorker 0 12] sys)))
  = Some 7%nat.
Proof.
  intros sys.
  pose proof (C5_refresh_failure_isolation 0
                (mkWorker "k" Scenarios.broken_fetch WStart) 10 11 12 sys eq_refl eq_refl)
    as (_ & _ & Hfail & _).
  destruct (Hfail "boom" eq_refl) as (_ & _ & Hkeep & _).
  apply (Hkeep (mkCacheEntry 7%nat 0 60) 1000).
  - vm_compute. reflexivity.
  - vm_compute. discriminate.
Defined.

Lemma C10_get_never_removes_witness :
  let self := set "k" 7%nat (Some 1) 0 new_cache in
  fst (get "k" 5000000 self) = None /\
  _cache (snd (get "k" 5000000 self)) !! "k" = Some (mkCacheEntry 7%nat 0 1).
Proof.
  intros self.
  apply (proj1 (proj2 (C10_get_never_removes "k" 5000000 self))).
  - vm_compute. reflexivity.
  - vm_compute. reflexivity.
Defined.

End CacheTheory.

(** * The batch executor *)

Module WorkerTheory.

Import Batch.

Lemma attempts_made_app tr1 tr2 :
  attempts_made (tr1 ++ tr2) = attempts_made tr1 ++ attempts_made tr2.
Proof. unfold attempts_made. apply flat_map_app. Qed.

Lemma polls_made_app tr1 tr2 :
  polls_made (tr1 ++ tr2) = polls_made tr1 ++ polls_made tr2.
Proof. unfold polls_made. apply flat_map_app. Qed.

Section Worker.

Variable max_retries : nat.
Variable command_ : string.
Variable timeout_seconds : Z.
Variable instance : instance_data.
Variable ssm : ssm_client.

Local Abbreviation poll_loop := (poll_loop max_retries command_ timeout_seconds instance ssm).
Local Abbreviation attempt_body := (attempt_body max_retries command_ timeout_seconds instance ssm).
Local Abbreviation retry_loop := (retry_loop max_retries command_ timeout_seconds instance ssm).
Local Abbreviation execute_on_instance :=
  (execute_on_instance max_retries command_ timeout_seconds instance ssm).
Local Abbreviation handle := (handle max_retries command_ instance).
Local Abbreviation max_wait := (max_wait timeout_seconds).

Local Abbreviation worker_result := (worker_result max_retries command_ instance).

Ltac poll_cases :=
  match goal with
  | |- context [get_command_invocation ?s ?a ?k] =>
      destruct (get_command_invocation s a k) as [latency [result|[code msg|msg]]]
  | H : context [get_command_invocation ?s ?a ?k] |- _ =>
      destruct (get_command_invocation s a k) as [latency [result|[code msg|msg]]]
  end.

Lemma poll_loop_sound attempt start_time remaining :
  forall waited st e st',
    poll_loop attempt start_time remaining waited st = (e, st') ->
    attempts_made (trace st') = attempts_made (trace st) /\
    (forall r, e = PollReturn r -> worker_result attempt start_time st' r).
Proof.
  induction remaining as [|remaining IH]; intros waited st e st' Hrun; cbn [Batch.poll_loop] in Hrun.
  - injection Hrun as <- <-. split; [reflexivity | discriminate].
  - destruct (waited <? max_wait); [|injection Hrun as <- <-; split; [reflexivity | discriminate]].
    poll_cases.
    + destruct (str_in (Status result) terminal_statuses).
      * destruct (String.eqb (Status result) "Success").
        { injection Hrun as <- <-. split.
          - cbn. rewrite attempts_made_app. cbn. apply app_nil_r.
          - intros r [= <-]. unfold worker_result. cbn. tauto. }
        destruct (attempt <? max_retries)%nat eqn:Hlast.
        { injection Hrun as <- <-. split.
          - cbn. rewrite attempts_made_app. cbn. apply app_nil_r.
          - discriminate. }
        injection Hrun as <- <-. split.
        { cbn. rewrite attempts_made_app. cbn. apply app_nil_r. }
        intros r [= <-]. unfold worker_result. cbn. tauto.
      * apply IH in Hrun as [Htr Hres]. split; [|exact Hres].
        rewrite Htr. cbn. rewrite !attempts_made_app. cbn. rewrite !app_nil_r. reflexivity.
    + destruct (String.eqb code "InvocationDoesNotExist");
        apply IH in Hrun as [Htr Hres]; (split; [|exact Hres]);
        rewrite Htr; cbn; rewrite !attempts_made_app; cbn; rewrite !app_nil_r; reflexivity.
    + injection Hrun as <- <-. split.
      * cbn. rewrite attempts_made_app. cbn. apply app_nil_r.
      * discriminate.
Qed.

Lemma poll_loop_kind attempt remaining :
  forall waited start1 start2 st1 st2,
    poll_kind (fst (poll_loop attempt start1 remaining waited st1))
    = poll_kind (fst (poll_loop attempt start2 remaining waited st2)).
Proof.
  induction remaining as [|remaining IH]; intros waited start1 start2 st1 st2;
    cbn [Batch.poll_loop]; [reflexivity|].
  destruct (waited <? max_wait); [|reflexivity].
  poll_cases.
  - destruct (str_in (Status result) terminal_statuses); [|apply IH].
    destruct (String.eqb (Status result) "Success"); [reflexivity|].
    destruct (attempt <? max_retries)%nat; reflexivity.
  - destruct (String.eqb code "InvocationDoesNotExist"); apply IH.
  - reflexivity.
Qed.

Lemma handle_sound attempt start_time e st x st' :
  handle attempt start_time e st = (x, st') ->
  st' = st /\
  (forall r, x = Return r -> worker_result attempt start_time st' r) /\
  (x = Continue <-> (attempt <? max_retries)%nat = true).
Proof.
  unfold Batch.handle. intros H.
  destruct e as [code msg|msg]; destruct (attempt <? max_retries)%nat eqn:Hlast;
    injection H as <- <-; (split; [reflexivity|split]);
    try (intros r [= <-]; unfold worker_result; cbn; tauto);
    try discriminate; try (split; [discriminate | reflexivity || discriminate]);
    split; reflexivity.
Qed.

Lemma backed_off_trace attempt st :
  attempts_made (trace (backed_off attempt st)) = attempts_made (trace st).
Proof.
  unfold backed_off. destruct (0 <? attempt)%nat; [|reflexivity].
  cbn. rewrite attempts_made_app. cbn. apply app_nil_r.
Qed.

Lemma attempt_body_sound attempt st x st' :
  attempt_body attempt st = (x, st') ->
  attempts_made (trace st') = attempts_made (trace st) ++ [attempt] /\
  (forall r, x = Return r -> worker_result attempt (clock st) st' r) /\
  ((attempt <? max_retries)%nat = false -> x <> Continue) /\
  ((attempt <? max_retries)%nat = true -> forall r, x = Return r -> status r = "SUCCESS").
Proof.
  unfold Batch.attempt_body.
  destruct (send_command ssm attempt) as [latency [command_id|e]]; intros Hrun.
  - destruct (poll_loop attempt (clock st) max_attempts 0
                (call (SendCommand attempt) latency (backed_off attempt st)))
      as [[r|msg|] st1] eqn:Hpoll;
      apply poll_loop_sound in Hpoll as [Htr Hres];
      cbn in Htr; rewrite attempts_made_app, backed_off_trace in Htr; cbn in Htr.
    + injection Hrun as <- <-. split; [exact Htr|].
      specialize (Hres r eq_refl). split; [intros ? [= <-]; exact Hres|].
      split; [discriminate|].
      intros Hlt ? [= <-]. destruct Hres as (_ & _ & _ & _ & [Hs|[Hl _]]); congruence.
    + apply handle_sound in Hrun as (-> & Hret & Hcont). split; [exact Htr|].
      split; [exact Hret|]. split.
      * intros Hl Hc. apply Hcont in Hc. congruence.
      * intros Hlt r ->. destruct (Hret r eq_refl) as (_ & _ & _ & _ & [Hs|[Hl _]]); congruence.
    + destruct (attempt <? max_retries)%nat eqn:Hlast; injection Hrun as <- <-;
        (split; [exact Htr|]).
      * split; [discriminate|]. split; [discriminate|]. intros _ r [=].
      * split; [intros r [= <-]; unfold worker_result; cbn; tauto|].
        split; [discriminate|]. discriminate.
  - apply handle_sound in Hrun as (-> & Hret & Hcont). split.
    + cbn. rewrite attempts_made_app, backed_off_trace. reflexivity.
    + split; [exact Hret|]. split.
      * intros Hl Hc. apply Hcont in Hc. congruence.
      * intros Hlt r ->. destruct (Hret r eq_refl) as (_ & _ & _ & _ & [Hs|[Hl _]]); congruence.
Qed.

Lemma attempt_body_status attempt st1 st2 :
  exit_status (fst (attempt_body attempt st1)) = exit_status (fst (attempt_body attempt st2)).
Proof.
  unfold Batch.attempt_body.
  destruct (send_command ssm attempt) as [latency [command_id|e]].
  - match goal with
    | |- context [poll_loop attempt ?s1 ?n ?w ?a] =>
        match goal with
        | |- context [poll_loop attempt ?s2 n w ?b] =>
            lazymatch a with
            | b => fail
            | _ => pose proof (poll_loop_kind attempt n w s1 s2 a b) as Hk;
                   destruct (poll_loop attempt s1 n w a) as [[r1|m1|] sa];
                   destruct (poll_loop attempt s2 n w b) as [[r2|m2|] sb]
            end
        end
    end; cbn in Hk; try discriminate.
    + cbn. congruence.
    + unfold Batch.handle. destruct (attempt <? max_retries)%nat; reflexivity.
    + destruct (attempt <? max_retries)%nat; reflexivity.
  - unfold Batch.handle. destruct e; destruct (attempt <? max_retries)%nat; reflexivity.
Qed.

Lemma failing_attempt attempt st r st' :
  attempt_succeeds max_retries command_ timeout_seconds instance ssm attempt = false ->
  attempt_body attempt st = (Return r, st') ->
  status r <> "SUCCESS".
Proof.
  unfold attempt_succeeds. intros Hfail Hrun.
  pose proof (attempt_body_status attempt st {| clock := 0; trace := [] |}) as Hst.
  rewrite Hrun in Hst. cbn in Hst.
  destruct (fst (attempt_body attempt {| clock := 0; trace := [] |})) as [r0|];
    cbn in Hst; [|discriminate].
  injection Hst as Hst. rewrite Hst. intros Heq. rewrite Heq in Hfail. discriminate.
Qed.

Lemma every_attempt_fails_spec :
  every_attempt_fails max_retries command_ timeout_seconds instance ssm = true ->
  forall attempt, (attempt <= max_retries)%nat ->
    attempt_succeeds max_retries command_ timeout_seconds instance ssm attempt = false.
Proof.
  unfold every_attempt_fails. rewrite forallb_forall. intros Hall attempt Hle.
  apply negb_true_iff, Hall, in_seq. lia.
Qed.

(** The [for] loop always ends in a [return]. *)
Lemma retry_loop_returns remaining :
  forall attempt st,
    (attempt + remaining = max_retries)%nat ->
    exists r st', retry_loop remaining attempt st = (Some r, st') /\
      instance_id r = InstanceId instance /\ command r = command_.
Proof.
  induction remaining as [|remaining IH]; intros attempt st Hsum; cbn [Batch.retry_loop];
    destruct (attempt_body attempt st) as [[r|] st1] eqn:Hrun;
    pose proof (attempt_body_sound _ _ _ _ Hrun) as (_ & Hres & Hlast & _).
  - exists r, st1. destruct (Hres r eq_refl) as (Hc & Hi & _). auto.
  - exfalso. apply Hlast; [|reflexivity]. apply Nat.ltb_ge. lia.
  - exists r, st1. destruct (Hres r eq_refl) as (Hc & Hi & _). auto.
  - apply IH. lia.
Qed.

Lemma retry_loop_all_fail remaining :
  forall attempt st,
    (attempt + remaining = max_retries)%nat ->
    (forall a, (a <= max_retries)%nat ->
       attempt_succeeds max_retries command_ timeout_seconds instance ssm a = false) ->
    exists r st_last st',
      retry_loop remaining attempt st = (Some r, st') /\
      attempt_body max_retries st_last = (Return r, st') /\
      attempts_made (trace st') = attempts_made (trace st) ++ seq attempt (S remaining) /\
      (status r = "FAILED" \/ status r = "TIMEOUT") /\
      execution_time r = clock st' - clock st_last.
Proof.
  induction remaining as [|remaining IH]; intros attempt st Hsum Hfail; cbn [Batch.retry_loop];
    destruct (attempt_body attempt st) as [[r|] st1] eqn:Hrun;
    pose proof (attempt_body_sound _ _ _ _ Hrun) as (Htr & Hres & Hlast & Hearly).
  - assert (attempt = max_retries) as -> by lia.
    exists r, st, st1. split; [reflexivity|]. split; [exact Hrun|]. split; [exact Htr|].
    destruct (Hres r eq_refl) as (_ & _ & _ & Htime & [Hs|[_ Hs]]).
    + exfalso. eapply failing_attempt; [|exact Hrun|exact Hs]. apply Hfail. lia.
    + split; [exact Hs | exact Htime].
  - exfalso. apply Hlast; [|reflexivity]. apply Nat.ltb_ge. lia.
  - exfalso. eapply failing_attempt; [|exact Hrun|]; [apply Hfail; lia|].
    apply (Hearly ltac:(apply Nat.ltb_lt; lia) r eq_refl).
  - destruct (IH (S attempt) st1 ltac:(lia) Hfail) as (r & st_last & st' & Hloop & Hbody & Htr' & Hs & Ht).
    exists r, st_last, st'. split; [exact Hloop|]. split; [exact Hbody|].
    split; [|split; [exact Hs | exact Ht]].
    rewrite Htr', Htr, <- app_assoc. reflexivity.
Qed.

(** A [ClientError] while polling is waited out. *)
Lemma poll_loop_client_error attempt start_time remaining waited st latency code msg :
  waited < max_wait ->
  get_command_invocation ssm attempt (max_attempts - remaining)%nat
    = (latency, PollRaises (ClientError code msg)) ->
  poll_loop attempt start_time (S remaining) waited st
  = poll_loop attempt start_time remaining (waited + 2)
      (sleep 2 (call (GetCommandInvocation attempt (max_attempts - remaining)%nat) latency st)).
Proof.
  intros Hw Hreply. cbn [Batch.poll_loop].
  apply Z.ltb_lt in Hw. rewrite Hw, Hreply.
  destruct (String.eqb code "InvocationDoesNotExist"); reflexivity.
Qed.

Lemma poll_loop_other_exception attempt start_time remaining waited st latency msg :
  waited < max_wait ->
  get_command_invocation ssm attempt (max_attempts - remaining)%nat
    = (latency, PollRaises (Exception msg)) ->
  poll_loop attempt start_time (S remaining) waited st
  = (PollRaise msg,
     call (GetCommandInvocation attempt (max_attempts - remaining)%nat) latency st).
Proof.
  intros Hw Hreply. cbn [Batch.poll_loop].
  apply Z.ltb_lt in Hw. rewrite Hw, Hreply. reflexivity.
Qed.

Lemma poll_loop_only_client_errors attempt start_time remaining :
  (forall k, exists latency code msg,
     get_command_invocation ssm attempt k = (latency, PollRaises (ClientError code msg))) ->
  forall waited st,
  exists n st',
    poll_loop attempt start_time remaining waited st = (PollExhausted, st') /\
    length (polls_made (trace st')) = (length (polls_made (trace st)) + n)%nat /\
    (n <= remaining)%nat /\
    (n = remaining \/ max_wait <= waited + 2 * Z.of_nat n) /\
    ((0 < n)%nat -> waited + 2 * (Z.of_nat n - 1) < max_wait).
Proof.
  intros Hall. induction remaining as [|remaining IH]; intros waited st.
  - exists 0%nat, st. cbn.
    split; [reflexivity|]. split; [lia|]. split; [lia|]. split; [left; reflexivity | lia].
  - destruct (Z.ltb_spec waited max_wait) as [Hlt|Hge].
    + destruct (Hall (max_attempts - remaining)%nat) as (latency & code & msg & Hreply).
      rewrite (poll_loop_client_error _ _ _ _ _ _ _ _ Hlt Hreply).
      destruct (IH (waited + 2)
                  (sleep 2 (call (GetCommandInvocation attempt (max_attempts - remaining)%nat)
                              latency st)))
        as (n & st' & Hrun & Hlen & Hle & Hstop & Hlast).
      exists (S n), st'. split; [exact Hrun|].
      split.
      { rewrite Hlen. cbn. rewrite !polls_made_app, !length_app. cbn. lia. }
      split; [lia|]. split; [destruct Hstop; [left|right]; lia|].
      intros _. destruct n; [lia|]. specialize (Hlast ltac:(lia)). lia.
    + exists 0%nat, st. cbn [Batch.poll_loop].
      pose proof Hge as Hge'. apply Z.ltb_ge in Hge'. rewrite Hge'.
      split; [reflexivity|]. split; [lia|]. split; [lia|]. split; [right; lia | lia].
Qed.

End Worker.

(** C2. Retry ceiling: when every attempt the budget allows fails (a failed
    or cancelled command, a timeout, a submit error), the worker makes the
    attempts 0, 1, ..., [max_retries] and no other, that is [max_retries + 1]
    of them, and returns what the last one produced, a result with status
    FAILED or TIMEOUT; the configured budget is 3. *)
Theorem C2_retry_ceiling (max_retries : nat) (command_ : string) (timeout_seconds : Z)
    (instance : instance_data) (ssm : ssm_client) (st : wstate) :
  every_attempt_fails max_retries command_ timeout_seconds instance ssm = true ->
  exists r st_last st',
    execute_on_instance max_retries command_ timeout_seconds instance ssm st = (Some r, st') /\
    attempts_made (trace st') = attempts_made (trace st) ++ seq 0 (S max_retries) /\
    length (attempts_made (trace st'))
      = (length (attempts_made (trace st)) + (max_retries + 1))%nat /\
    attempt_body max_retries command_ timeout_seconds instance ssm max_retries st_last
      = (Return r, st') /\
    (status r = "FAILED" \/ status r = "TIMEOUT") /\
    Config.BATCH_COMMAND_RETRY = 3%nat.
Proof.
  intros Hfail.
  destruct (retry_loop_all_fail max_retries command_ timeout_seconds instance ssm
              max_retries 0%nat st eq_refl
              (every_attempt_fails_spec _ _ _ _ _ Hfail))
    as (r & st_last & st' & Hloop & Hbody & Htr & Hs & _).
  exists r, st_last, st'. split; [exact Hloop|]. split; [exact Htr|].
  split; [|split; [exact Hbody|split; [exact Hs|reflexivity]]].
  rewrite Htr, length_app, length_seq. lia.
Qed.

Lemma C2_retry_ceiling_witness :
  exists r st_last st',
    execute_on_instance 3 "uptime" 120 Scenarios.web1 Scenarios.always_failing
      Scenarios.at_zero = (Some r, st') /\
    attempts_made (trace st') = attempts_made (trace Scenarios.at_zero) ++ seq 0 4 /\
    length (attempts_made (trace st'))
      = (length (attempts_made (trace Scenarios.at_zero)) + (3 + 1))%nat /\
    attempt_body 3 "uptime" 120 Scenarios.web1 Scenarios.always_failing 3%nat st_last
      = (Return r, st') /\
    (status r = "FAILED" \/ status r = "TIMEOUT") /\
    Config.BATCH_COMMAND_RETRY = 3%nat.
Proof.
  apply (C2_retry_ceiling 3 "uptime" 120 Scenarios.web1 Scenarios.always_failing
           Scenarios.at_zero).
  vm_compute. reflexivity.
Defined.

(** C7, as the specification states it, fails: with a budget of two retries
    and a target that fails at once in each of the three attempts, the run
    takes 30 seconds (0 + 10 + 20 of backoff) and the FAILED result
    carries 20 seconds, the time of the third attempt alone. *)
Lemma C7_total_elapsed_counterexample :
  every_attempt_fails 2 "uptime" 120 Scenarios.web1 Scenarios.always_failing = true /\
  exists r st',
    execute_on_instance 2 "uptime" 120 Scenarios.web1 Scenarios.always_failing
      Scenarios.at_zero = (Some r, st') /\
    status r = "FAILED" /\
    clock st' - clock Scenarios.at_zero = 30000 /\
    execution_time r = 20000 /\
    execution_time r <> clock st' - clock Scenarios.at_zero.
Proof.
  split; [vm_compute; reflexivity|].
  eexists. eexists. split; [vm_compute; reflexivity|].
  cbn. repeat split; try reflexivity. discriminate.
Qed.

(** C7, amended. With a budget of two retries and a target that fails in
    every attempt, the FAILED (or TIMEOUT) result carries the time from the
    start of the third attempt to its end: the 20 seconds of backoff before
    it and its own remote calls and polling, and nothing of the first two
    attempts. *)
Theorem C7_failure_elapsed_time (command_ : string) (timeout_seconds : Z)
    (instance : instance_data) (ssm : ssm_client) (st : wstate) :
  every_attempt_fails 2 command_ timeout_seconds instance ssm = true ->
  exists st1 st2 r st',
    attempt_body 2 command_ timeout_seconds instance ssm 0%nat st = (Continue, st1) /\
    attempt_body 2 command_ timeout_seconds instance ssm 1%nat st1 = (Continue, st2) /\
    attempt_body 2 command_ timeout_seconds instance ssm 2%nat st2 = (Return r, st') /\
    execute_on_instance 2 command_ timeout_seconds instance ssm st = (Some r, st') /\
    (status r = "FAILED" \/ status r = "TIMEOUT") /\
    execution_time r = clock st' - clock st2 /\
    execution_time r = 20000 + (clock st' - clock (backed_off 2 st2)).
Proof.
  intros Hall. pose proof (every_attempt_fails_spec _ _ _ _ _ Hall) as Hfail.
  assert (Hloop : forall x y z, attempt_body 2 command_ timeout_seconds instance ssm 0%nat st
                        = (Continue, x) ->
                      attempt_body 2 command_ timeout_seconds instance ssm 1%nat x
                        = (Continue, y) ->
                      attempt_body 2 command_ timeout_seconds instance ssm 2%nat y = z ->
                      execute_on_instance 2 command_ timeout_seconds instance ssm st
                      = (match fst z with Return r => Some r | Continue => None end, snd z)).
  { intros x y [[r|] z] Hx Hy Hz; unfold Batch.execute_on_instance; cbn [Batch.retry_loop];
      rewrite Hx, Hy, Hz; reflexivity. }
  destruct (attempt_body 2 command_ timeout_seconds instance ssm 0%nat st)
    as [[r0|] st1] eqn:H0.
  { exfalso. eapply failing_attempt; [apply (Hfail 0%nat); lia | exact H0 |].
    pose proof (attempt_body_sound _ _ _ _ _ _ _ _ _ H0) as (_ & _ & _ & He).
    apply (He eq_refl r0 eq_refl). }
  destruct (attempt_body 2 command_ timeout_seconds instance ssm 1%nat st1)
    as [[r1|] st2] eqn:H1.
  { exfalso. eapply failing_attempt; [apply (Hfail 1%nat); lia | exact H1 |].
    pose proof (attempt_body_sound _ _ _ _ _ _ _ _ _ H1) as (_ & _ & _ & He).
    apply (He eq_refl r1 eq_refl). }
  destruct (attempt_body 2 command_ timeout_seconds instance ssm 2%nat st2)
    as [[r|] st'] eqn:H2;
    pose proof (attempt_body_sound _ _ _ _ _ _ _ _ _ H2) as (_ & Hres & Hlast & _).
  - exists st1, st2, r, st'. split; [reflexivity|]. split; [exact H1|].
    split; [exact H2|]. split; [apply (Hloop st1 st2 _ eq_refl H1 H2)|].
    destruct (Hres r eq_refl) as (_ & _ & _ & Htime & [Hs|[_ Hs]]).
    + exfalso. eapply failing_attempt; [apply (Hfail 2%nat); lia | exact H2 | exact Hs].
    + split; [exact Hs|]. split; [exact Htime|]. rewrite Htime.
      change (clock (backed_off 2 st2)) with (clock st2 + 20 * 1000). lia.
  - exfalso. apply Hlast; reflexivity.
Qed.

Lemma C7_failure_elapsed_time_witness :
  exists st1 st2 r st',
    attempt_body 2 "uptime" 120 Scenarios.web1 Scenarios.never_registered 0%nat
      Scenarios.at_zero = (Continue, st1) /\
    attempt_body 2 "uptime" 120 Scenarios.web1 Scenarios.never_registered 1%nat st1
      = (Continue, st2) /\
    attempt_body 2 "uptime" 120 Scenarios.web1 Scenarios.never_registered 2%nat st2
      = (Return r, st') /\
    execute_on_instance 2 "uptime" 120 Scenarios.web1 Scenarios.never_registered
      Scenarios.at_zero = (Some r, st') /\
    (status r = "FAILED" \/ status r = "TIMEOUT") /\
    execution_time r = clock st' - clock st2 /\
    execution_time r = 20000 + (clock st' - clock (backed_off 2 st2)).
Proof.
  apply (C7_failure_elapsed_time "uptime" 120 Scenarios.web1 Scenarios.never_registered
           Scenarios.at_zero).
  vm_compute. reflexivity.
Defined.

(** C8, as the specification states it, fails: the first status query of
    the first attempt raises an exception that is not a [ClientError]; the
    wait budget and the poll ceiling are untouched and the next query would
    report success, yet the attempt ends there, after that one query, and
    the command is sent again. *)
Lemma C8_unexpected_exception_counterexample :
  get_command_invocation Scenarios.flaky_poll 0 1
    = (0, PollRaises (Exception "Could not connect to the endpoint URL")) /\
  get_command_invocation Scenarios.flaky_poll 0 2 = (0, PollOk Scenarios.success_invocation) /\
  exists st',
    attempt_body 3 "uptime" 120 Scenarios.web1 Scenarios.flaky_poll 0%nat Scenarios.at_zero
      = (Continue, st') /\
    polls_made (trace st') = [(0%nat, 1%nat)] /\
    attempts_made
      (trace (snd (execute_on_instance 3 "uptime" 120 Scenarios.web1 Scenarios.flaky_poll
                     Scenarios.at_zero)))
    = [0%nat; 1%nat].
Proof.
  split; [reflexivity|]. split; [reflexivity|].
  eexists. split; [vm_compute; reflexivity|].
  split; vm_compute; reflexivity.
Qed.

(** C8, amended. A [ClientError] raised while polling the command status
    (the code [InvocationDoesNotExist] or any other) counts as "not yet
    terminal": two seconds are waited and charged to the wait budget, and
    the next query follows; when every query raises a [ClientError] the
    loop ends only at its ceilings, after 200 queries or once the budget is
    used up. An exception of another kind leaves the polling loop at once. *)
Theorem C8_polling_absorbs_client_errors (max_retries : nat) (command_ : string)
    (timeout_seconds : Z) (instance : instance_data) (ssm : ssm_client)
    (attempt : nat) (start_time : Z) :
  (forall remaining waited st latency code msg,
     waited < max_wait timeout_seconds ->
     get_command_invocation ssm attempt (max_attempts - remaining)%nat
       = (latency, PollRaises (ClientError code msg)) ->
     poll_loop max_retries command_ timeout_seconds instance ssm attempt start_time
       (S remaining) waited st
     = poll_loop max_retries command_ timeout_seconds instance ssm attempt start_time
         remaining (waited + 2)
         (sleep 2 (call (GetCommandInvocation attempt (max_attempts - remaining)%nat)
                     latency st))) /\
  ((forall k, exists latency code msg,
      get_command_invocation ssm attempt k = (latency, PollRaises (ClientError code msg))) ->
   forall st, exists n st',
     poll_loop max_retries command_ timeout_seconds instance ssm attempt start_time
       max_attempts 0 st = (PollExhausted, st') /\
     length (polls_made (trace st')) = (length (polls_made (trace st)) + n)%nat /\
     (n <= 200)%nat /\
     (n = 200%nat \/ max_wait timeout_seconds <= 2 * Z.of_nat n) /\
     ((0 < n)%nat -> 2 * (Z.of_nat n - 1) < max_wait timeout_seconds)) /\
  (forall remaining waited st latency msg,
     waited < max_wait timeout_seconds ->
     get_command_invocation ssm attempt (max_attempts - remaining)%nat
       = (latency, PollRaises (Exception msg)) ->
     poll_loop max_retries command_ timeout_seconds instance ssm attempt start_time
       (S remaining) waited st
     = (PollRaise msg,
        call (GetCommandInvocation attempt (max_attempts - remaining)%nat) latency st)).
Proof.
  split; [|split].
  - intros. eapply poll_loop_client_error; eassumption.
  - intros Hall st.
    destruct (poll_loop_only_client_errors max_retries command_ timeout_seconds instance ssm
                attempt start_time max_attempts Hall 0 st)
      as (n & st' & Hrun & Hlen & Hle & Hstop & Hlast).
    exists n, st'. unfold max_attempts in *.
    split; [exact Hrun|]. split; [exact Hlen|]. split; [exact Hle|]. split.
    + destruct Hstop; [left|right]; lia.
    + intros Hn. specialize (Hlast Hn). lia.
  - intros. apply poll_loop_other_exception; assumption.
Qed.

Lemma C8_polling_absorbs_client_errors_witness :
  exists n st',
    poll_loop 3 "uptime" 120 Scenarios.web1 Scenarios.never_registered 0%nat 0
      max_attempts 0 Scenarios.at_zero = (PollExhausted, st') /\
    length (polls_made (trace st'))
      = (length (polls_made (trace Scenarios.at_zero)) + n)%nat /\
    (n <= 200)%nat /\
    (n = 200%nat \/ max_wait 120 <= 2 * Z.of_nat n) /\
    ((0 < n)%nat -> 2 * (Z.of_nat n - 1) < max_wait 120).
Proof.
  apply (proj1 (proj2 (C8_polling_absorbs_client_errors 3 "uptime" 120 Scenarios.web1
                         Scenarios.never_registered 0%nat 0))).
  intros k. exists 0, "InvocationDoesNotExist", "An error occurred". reflexivity.
Defined.

End WorkerTheory.

Module ManagerTheory.

Import Batch.

(** *** Validation keeps a part of the targets *)

Lemma filter_submseteq {A} (f : A -> bool) (l : list A) : List.filter f l ⊆+ l.
Proof.
  induction l as [|x l IH]; cbn; [constructor|].
  destruct (f x); [apply submseteq_skip | apply submseteq_cons]; exact IH.
Qed.

Lemma add_to_region_perm region inst groups :
  concat (map snd (add_to_region region inst groups)) ≡ₚ inst :: concat (map snd groups).
Proof.
  induction groups as [|[r group] groups IH]; cbn; [reflexivity|].
  destruct (String.eqb r region); cbn.
  - rewrite <- app_assoc. cbn. apply Permutation_sym, Permutation_middle.
  - rewrite IH. apply Permutation_sym, Permutation_middle.
Qed.

Lemma group_by_region_perm instances :
  concat (map snd (group_by_region instances)) ≡ₚ instances.
Proof.
  unfold group_by_region.
  assert (Hgen : forall groups,
             concat (map snd
                       (fold_left (fun g inst => add_to_region (region_of inst) inst g)
                          instances groups))
             ≡ₚ concat (map snd groups) ++ instances).
  { induction instances as [|inst instances IH]; intros groups; cbn.
    - rewrite app_nil_r. reflexivity.
    - rewrite IH, add_to_region_perm. exact (Permutation_middle _ _ _). }
  rewrite Hgen. reflexivity.
Qed.

Lemma validate_region_submseteq describe validated group :
  validate_region describe validated group ⊆+ validated ++ snd group.
Proof.
  destruct group as [region region_instances]. cbn.
  destruct (describe region (map InstanceId region_instances)) as [infos|e].
  - apply submseteq_skips_l, filter_submseteq.
  - reflexivity.
Qed.

Lemma validated_submseteq describe instances :
  _validate_ssm_instances describe instances ⊆+ instances.
Proof.
  unfold _validate_ssm_instances.
  rewrite <- (group_by_region_perm instances) at 2.
  generalize (group_by_region instances) as groups.
  assert (Hgen : forall groups validated,
             fold_left (validate_region describe) groups validated
             ⊆+ validated ++ concat (map snd groups)).
  { induction groups as [|group groups IH]; intros validated; cbn.
    - rewrite app_nil_r. reflexivity.
    - etransitivity; [apply IH|].
      rewrite app_assoc. apply submseteq_app; [|reflexivity].
      apply validate_region_submseteq. }
  intros groups. apply (Hgen groups []).
Qed.

Lemma submseteq_NoDup {A} (l k : list A) : l ⊆+ k -> NoDup k -> NoDup l.
Proof.
  intros Hsub Hnd. apply submseteq_Permutation in Hsub as [rest Hperm].
  rewrite Hperm in Hnd. apply NoDup_app in Hnd as [Hnd _]. exact Hnd.
Qed.

Lemma validated_ids describe instances :
  map InstanceId (_validate_ssm_instances describe instances) ⊆+ map InstanceId instances.
Proof. apply (fmap_submseteq InstanceId), validated_submseteq. Qed.

(** *** The pool *)

Lemma as_completed_perm {A} order (pending : list A) :
  as_completed order pending ≡ₚ pending.
Proof.
  revert pending. induction order as [|i order IH]; intros pending; cbn; [reflexivity|].
  destruct (pending !! i) as [fut|] eqn:Hi; [|apply IH].
  rewrite IH. symmetry. apply delete_Permutation, Hi.
Qed.

Section Run.

Variable max_retries : nat.
Variable command_ : string.
Variable timeout_seconds : Z.

Local Abbreviation run_worker := (run_worker max_retries command_ timeout_seconds).
Local Abbreviation submit_all := (submit_all max_retries command_ timeout_seconds).
Local Abbreviation run_pool := (run_pool max_retries command_ timeout_seconds).
Local Abbreviation error_result := (error_result command_).
Local Abbreviation future_result := (future_result command_).
Local Abbreviation collect := (collect command_).
Local Abbreviation execute_batch_command :=
  (execute_batch_command max_retries command_ timeout_seconds).

Lemma fold_collect futures results :
  fold_left collect futures results = results ++ map future_result futures.
Proof.
  revert results. induction futures as [|[[inst env] outcome] futures IH]; intros results; cbn.
  - symmetry. apply app_nil_r.
  - rewrite IH. destruct outcome; cbn; rewrite <- app_assoc; reflexivity.
Qed.

Lemma run_pool_eq workers order validated :
  run_pool workers order validated
  = map future_result (as_completed order (submit_all workers validated)).
Proof. unfold Batch.run_pool. apply fold_collect. Qed.

Lemma run_worker_id env inst :
  instance_id (future_result (inst, env, run_worker env inst)) = InstanceId inst.
Proof.
  cbn. unfold Batch.run_worker. destruct (client env) as [e|ssm]; [reflexivity|].
  destruct (WorkerTheory.retry_loop_returns max_retries command_ timeout_seconds inst ssm
              max_retries 0%nat {| clock := started_at env; trace := [] |})
    as (r & st' & Hrun & Hid & _); [lia|].
  unfold execute_on_instance. rewrite Hrun. exact Hid.
Qed.

Lemma submit_all_ids workers validated :
  map (fun fut => instance_id (future_result fut)) (submit_all workers validated)
  = map InstanceId validated.
Proof.
  unfold Batch.submit_all. revert workers.
  induction validated as [|inst validated IH]; intros workers; [reflexivity|].
  rewrite imap_cons. cbn [map]. rewrite run_worker_id. f_equal. apply (IH (workers ∘ S)).
Qed.

Lemma run_pool_ids workers order validated :
  map instance_id (run_pool workers order validated) ≡ₚ map InstanceId validated.
Proof.
  rewrite run_pool_eq, map_map, <- (submit_all_ids workers).
  apply Permutation_map, as_completed_perm.
Qed.

Lemma run_pool_length workers order validated :
  length (run_pool workers order validated) = length validated.
Proof.
  rewrite <- (length_map instance_id), <- (length_map InstanceId validated).
  apply Permutation_length, run_pool_ids.
Qed.

Lemma run_pool_nil workers order : run_pool workers order [] = [].
Proof. apply length_zero_iff_nil. apply run_pool_length. Qed.

Lemma run_pool_error workers order validated i inst e :
  validated !! i = Some inst ->
  client (workers i) = ClientRaises e ->
  In (error_result inst e (started_at (workers i))) (run_pool workers order validated).
Proof.
  intros Hi He. rewrite run_pool_eq.
  apply in_map_iff. exists (inst, workers i, Raised e). split; [reflexivity|].
  apply list_elem_of_In. rewrite as_completed_perm.
  apply list_elem_of_lookup. exists i. unfold Batch.submit_all.
  rewrite list_lookup_imap, Hi. cbn. unfold Batch.run_worker. rewrite He. reflexivity.
Qed.

(** *** Patching the results of a re-drive in *)

Lemma replace_first_ids retry_result results :
  map instance_id (replace_first retry_result results) = map instance_id results.
Proof.
  induction results as [|r results IH]; cbn; [reflexivity|].
  destruct (String.eqb (instance_id r) (instance_id retry_result)) eqn:E; cbn.
  - apply String.eqb_eq in E. rewrite E. reflexivity.
  - rewrite IH. reflexivity.
Qed.

Lemma patch_ids retry_results results :
  map instance_id (patch retry_results results) = map instance_id results.
Proof.
  unfold patch. revert results.
  induction retry_results as [|rr retry_results IH]; intros results; cbn; [reflexivity|].
  rewrite IH. apply replace_first_ids.
Qed.

Lemma patch_length retry_results results :
  length (patch retry_results results) = length results.
Proof.
  rewrite <- (length_map instance_id), patch_ids. apply length_map.
Qed.

Lemma replace_first_in retry_result results :
  In (instance_id retry_result) (map instance_id results) ->
  In retry_result (replace_first retry_result results).
Proof.
  induction results as [|r results IH]; cbn; [tauto|].
  destruct (String.eqb (instance_id r) (instance_id retry_result)) eqn:E.
  - intros _. left. reflexivity.
  - intros [Heq|Hin]; [apply String.eqb_neq in E; congruence|].
    right. apply IH, Hin.
Qed.

Lemma replace_first_keeps retry_result x results :
  In x results ->
  instance_id x <> instance_id retry_result ->
  In x (replace_first retry_result results).
Proof.
  induction results as [|r results IH]; cbn; [tauto|].
  intros [->|Hin] Hne.
  - destruct (String.eqb (instance_id x) (instance_id retry_result)) eqn:E.
    + apply String.eqb_eq in E. contradiction.
    + left. reflexivity.
  - destruct (String.eqb (instance_id r) (instance_id retry_result)).
    + right. exact Hin.
    + right. apply IH; assumption.
Qed.

Lemma patch_keeps retry_results x results :
  In x results ->
  ~ In (instance_id x) (map instance_id retry_results) ->
  In x (patch retry_results results).
Proof.
  unfold patch. revert results.
  induction retry_results as [|rr retry_results IH]; intros results Hin Hout; cbn; [exact Hin|].
  cbn in Hout. apply IH.
  - apply replace_first_keeps; [exact Hin|]. intros Heq. apply Hout. left. congruence.
  - intros H. apply Hout. right. exact H.
Qed.

Lemma patch_in retry_results results :
  NoDup (map instance_id retry_results) ->
  (forall rr, In rr retry_results -> In (instance_id rr) (map instance_id results)) ->
  forall rr, In rr retry_results -> In rr (patch retry_results results).
Proof.
  revert results.
  induction retry_results as [|rr0 retry_results IH]; intros results Hnd Hids rr Hin;
    [destruct Hin|].
  cbn in Hnd. apply NoDup_cons in Hnd as [Hfresh Hnd].
  rewrite list_elem_of_In in Hfresh.
  change (patch (rr0 :: retry_results) results)
    with (patch retry_results (replace_first rr0 results)).
  destruct Hin as [->|Hin].
  - apply patch_keeps; [|exact Hfresh].
    apply replace_first_in, Hids. left. reflexivity.
  - apply IH; [exact Hnd| |exact Hin].
    intros rr' Hrr'. rewrite replace_first_ids. apply Hids. right. exact Hrr'.
Qed.

(** *** The whole call *)

Lemma world_induction (P : world -> Prop) :
  (forall describe workers order outcome, P (mkWorld describe workers order None outcome)) ->
  (forall describe workers order w' outcome,
     P w' -> P (mkWorld describe workers order (Some w') outcome)) ->
  forall w, P w.
Proof.
  intros Hno Hyes. fix IH 1. intros [describe workers order [w'|] outcome].
  - apply Hyes, IH.
  - apply Hno.
Qed.

Lemma save_history outcome self :
  results_history (save_results_history outcome self) = results_history self.
Proof. unfold save_results_history. destruct outcome; reflexivity. Qed.

Lemma failed_count_nil : failed_count [] = 0%nat.
Proof. reflexivity. Qed.

Lemma execute_batch_command_eq describe workers order answer outcome instances self :
  execute_batch_command (mkWorld describe workers order answer outcome) instances self
  = let validated_instances := _validate_ssm_instances describe instances in
    match validated_instances with
    | [] => ([], self)
    | _ :: _ =>
        let results := run_pool workers order validated_instances in
        let '(results, self) :=
          if (0 <? failed_count results)%nat then
            match answer with
            | Some w' =>
                let '(retry_results, self) :=
                  execute_batch_command w'
                    (failed_instances validated_instances results) self in
                (patch retry_results results, self)
            | None => (results, self)
            end
          else (results, self) in
        (results, save_results_history outcome (extend_history results self))
    end.
Proof. reflexivity. Qed.

Lemma execute_batch_command_patch w instances self :
  exists retry_results,
    fst (execute_batch_command w instances self)
    = patch retry_results
        (run_pool (worker_of w) (completion_order w)
           (_validate_ssm_instances (describe_instance_information w) instances)).
Proof.
  destruct w as [describe workers order answer outcome].
  rewrite execute_batch_command_eq.
  cbn [describe_instance_information worker_of completion_order].
  cbv zeta.
  destruct (_validate_ssm_instances describe instances) as [|inst validated] eqn:Hv.
  - exists []. rewrite run_pool_nil. reflexivity.
  - destruct (0 <? failed_count (run_pool workers order (inst :: validated)))%nat;
      [destruct answer as [w'|]|].
    + destruct (execute_batch_command w'
                  (failed_instances (inst :: validated)
                     (run_pool workers order (inst :: validated))) self)
        as [retry_results self1].
      exists retry_results. reflexivity.
    + exists []. reflexivity.
    + exists []. reflexivity.
Qed.

Lemma execute_batch_command_ids w instances self :
  map instance_id (fst (execute_batch_command w instances self))
  ≡ₚ map InstanceId (_validate_ssm_instances (describe_instance_information w) instances).
Proof.
  destruct (execute_batch_command_patch w instances self) as [retry_results ->].
  rewrite patch_ids. apply run_pool_ids.
Qed.

Lemma execute_batch_command_redrive describe workers order w' outcome instances self :
  let validated := _validate_ssm_instances describe instances in
  let first_pass := run_pool workers order validated in
  let redrive :=
    execute_batch_command w' (failed_instances validated first_pass) self in
  (0 < failed_count first_pass)%nat ->
  execute_batch_command (mkWorld describe workers order (Some w') outcome) instances self
  = (patch (fst redrive) first_pass,
     save_results_history outcome
       (extend_history (patch (fst redrive) first_pass) (snd redrive))).
Proof.
  intros validated first_pass redrive Hfailed.
  subst redrive first_pass validated.
  rewrite execute_batch_command_eq. cbv zeta.
  destruct (_validate_ssm_instances describe instances) as [|inst validated] eqn:Hv.
  - rewrite run_pool_nil in Hfailed. cbn in Hfailed. lia.
  - apply Nat.ltb_lt in Hfailed. rewrite Hfailed.
    destruct (execute_batch_command w'
                (failed_instances (inst :: validated)
                   (run_pool workers order (inst :: validated))) self)
      as [retry_results self1].
    reflexivity.
Qed.

Lemma history_grows w :
  forall instances self, exists pre,
    results_history (snd (execute_batch_command w instances self))
    = results_history self ++ pre ++ fst (execute_batch_command w instances self).
Proof.
  induction w as [describe workers order outcome|describe workers order w' outcome IH]
    using world_induction; intros instances self;
    rewrite execute_batch_command_eq; cbv zeta;
    destruct (_validate_ssm_instances describe instances) as [|inst validated] eqn:Hv;
    try (exists []; cbn; rewrite app_nil_r; reflexivity).
  - exists []. destruct (0 <? failed_count _)%nat; cbn; rewrite save_history; reflexivity.
  - destruct (0 <? failed_count (run_pool workers order (inst :: validated)))%nat.
    + destruct (IH (failed_instances (inst :: validated)
                      (run_pool workers order (inst :: validated))) self) as [pre Hpre].
      destruct (execute_batch_command w' _ self) as [retry_results self1].
      cbn [fst snd] in Hpre |- *. exists (pre ++ retry_results).
      rewrite save_history. cbn [extend_history results_history].
      rewrite Hpre, <- !app_assoc. reflexivity.
    + exists []. cbn. rewrite save_history. reflexivity.
Qed.

Lemma failed_instances_ids validated results :
  map InstanceId (failed_instances validated results) ⊆+ map instance_id results.
Proof.
  induction results as [|r results IH]; cbn; [constructor|].
  destruct (String.eqb (status r) "SUCCESS"); cbn; [apply submseteq_cons, IH|].
  destruct (List.find _ validated) as [inst|] eqn:Hfind; cbn; [|apply submseteq_cons, IH].
  apply List.find_some in Hfind as [_ Heq]. apply String.eqb_eq in Heq.
  rewrite Heq. apply submseteq_skip, IH.
Qed.

Lemma recent_results_short history tail :
  (length tail <= 100)%nat ->
  exists older, recent_results (history ++ tail) = older ++ tail.
Proof.
  intros Hlen. unfold recent_results.
  exists (drop (length (history ++ tail) - 100) history).
  apply drop_app_le. rewrite length_app. lia.
Qed.

(** *** What the returned list holds *)

Lemma run_pool_outcome workers order validated i inst :
  validated !! i = Some inst ->
  In (future_result (inst, workers i, run_worker (workers i) inst))
     (run_pool workers order validated).
Proof.
  intros Hi. rewrite run_pool_eq.
  apply in_map. apply list_elem_of_In. rewrite as_completed_perm.
  apply list_elem_of_lookup. exists i. unfold Batch.submit_all.
  rewrite list_lookup_imap, Hi. reflexivity.
Qed.

Lemma replace_first_cases retry_result x results :
  In x results ->
  In x (replace_first retry_result results) \/
  instance_id retry_result = instance_id x /\
  In retry_result (replace_first retry_result results).
Proof.
  intros Hin.
  destruct (String.eqb (instance_id x) (instance_id retry_result)) eqn:E.
  - apply String.eqb_eq in E. right. split; [congruence|].
    apply replace_first_in. rewrite <- E. apply in_map, Hin.
  - apply String.eqb_neq in E. left. apply replace_first_keeps; assumption.
Qed.

Lemma patch_cases retry_results :
  forall x results,
    In x results ->
    In x (patch retry_results results) \/
    exists rr, In rr retry_results /\ instance_id rr = instance_id x /\
               In rr (patch retry_results results).
Proof.
  induction retry_results as [|rr0 retry_results IH]; intros x results Hin;
    [left; exact Hin|].
  change (patch (rr0 :: retry_results) results)
    with (patch retry_results (replace_first rr0 results)).
  destruct (replace_first_cases rr0 x results Hin) as [Hkept|[Hid Hnew]].
  - destruct (IH x _ Hkept) as [H|(rr & Hrr & Hid & H)]; [left; exact H|].
    right. exists rr. split; [right; exact Hrr|]. auto.
  - right. destruct (IH rr0 _ Hnew) as [H|(rr & Hrr & Hid' & H)].
    + exists rr0. split; [left; reflexivity|]. auto.
    + exists rr. split; [right; exact Hrr|]. split; [congruence|exact H].
Qed.

(** The outcome of the worker of a validated target is in the returned
    list, unless the re-drive brought a result for the id of the target;
    then a result of the re-drive with that id is in the list. *)
Lemma execute_batch_command_outcome w instances self i inst :
  _validate_ssm_instances (describe_instance_information w) instances !! i = Some inst ->
  let x := future_result (inst, worker_of w i, run_worker (worker_of w i) inst) in
  let results := fst (execute_batch_command w instances self) in
  In x results \/
  exists w' targets rr,
    retry_choice w = Some w' /\
    In rr (fst (execute_batch_command w' targets self)) /\
    instance_id rr = InstanceId inst /\
    In rr results.
Proof.
  destruct w as [describe workers order answer outcome].
  intros Hi x results. subst results.
  cbn [describe_instance_information worker_of retry_choice] in *.
  pose proof (run_pool_outcome workers order _ i inst Hi) as Hx. fold x in Hx.
  assert (Hid : instance_id x = InstanceId inst) by apply run_worker_id.
  rewrite execute_batch_command_eq. cbv zeta.
  destruct (_validate_ssm_instances describe instances) as [|inst0 validated] eqn:Hv;
    [discriminate|].
  destruct (0 <? failed_count (run_pool workers order (inst0 :: validated)))%nat;
    [destruct answer as [w'|]|]; try (left; exact Hx).
  destruct (execute_batch_command w'
              (failed_instances (inst0 :: validated)
                 (run_pool workers order (inst0 :: validated))) self)
    as [retry_results self1] eqn:Hredrive.
  cbn [fst].
  destruct (patch_cases retry_results x _ Hx) as [H|(rr & Hrr & Hrrid & H)];
    [left; exact H|].
  right. exists w', (failed_instances (inst0 :: validated)
                       (run_pool workers order (inst0 :: validated))), rr.
  rewrite Hredrive. cbn [fst]. split; [reflexivity|]. split; [exact Hrr|].
  split; [congruence|exact H].
Qed.

Lemma future_result_spec env inst :
  appended_for max_retries command_ timeout_seconds env inst
    (future_result (inst, env, run_worker env inst)).
Proof.
  unfold appended_for. cbn. unfold Batch.run_worker. destruct (client env) as [e|ssm]; [reflexivity|].
  destruct (WorkerTheory.retry_loop_returns max_retries command_ timeout_seconds inst ssm
              max_retries 0%nat {| clock := started_at env; trace := [] |})
    as (r & st' & Hrun & _); [lia|].
  unfold execute_on_instance. rewrite Hrun. exists st'. reflexivity.
Qed.

Lemma execute_batch_command_single describe workers order outcome instances self :
  fst (execute_batch_command (mkWorld describe workers order None outcome) instances self)
  = run_pool workers order (_validate_ssm_instances describe instances).
Proof.
  rewrite execute_batch_command_eq. cbv zeta.
  destruct (_validate_ssm_instances describe instances) as [|inst validated] eqn:Hv.
  - rewrite run_pool_nil. reflexivity.
  - destruct (0 <? failed_count _)%nat; reflexivity.
Qed.

Lemma execute_batch_command_length w instances self :
  length (fst (execute_batch_command w instances self))
  = length (_validate_ssm_instances (describe_instance_information w) instances).
Proof.
  rewrite <- (length_map instance_id), <- (length_map InstanceId (_validate_ssm_instances _ _)).
  apply Permutation_length, execute_batch_command_ids.
Qed.

Lemma failed_instances_length validated results :
  map instance_id results ≡ₚ map InstanceId validated ->
  length (failed_instances validated results) = failed_count results.
Proof.
  intros Hperm.
  assert (Hfound : forall r, In r results ->
            exists inst, List.find (fun inst => String.eqb (InstanceId inst) (instance_id r))
                           validated = Some inst).
  { intros r Hr.
    assert (Hid : In (instance_id r) (map InstanceId validated)).
    { apply list_elem_of_In. rewrite <- Hperm. apply list_elem_of_In, in_map, Hr. }
    apply in_map_iff in Hid as (inst & Heq & Hinst).
    destruct (List.find (fun inst => String.eqb (InstanceId inst) (instance_id r)) validated)
      as [found|] eqn:Hfind; [eauto|].
    exfalso. apply (List.find_none _ _ Hfind) in Hinst.
    apply String.eqb_neq in Hinst. contradiction. }
  clear Hperm. unfold failed_count, success_count.
  induction results as [|r results IH]; [reflexivity|].
  cbn [failed_instances flat_map List.filter length].
  rewrite length_app.
  fold (failed_instances validated results).
  rewrite IH by (intros r' Hr'; apply Hfound; right; exact Hr').
  assert (Hle' : (length (List.filter (fun r => String.eqb (status r) "SUCCESS") results)
                  <= length results)%nat).
  { clear. induction results as [|r results IH]; cbn; [lia|].
    destruct (String.eqb (status r) "SUCCESS"); cbn; lia. }
  destruct (String.eqb (status r) "SUCCESS"); cbn [length].
  - lia.
  - destruct (Hfound r (or_introl eq_refl)) as [inst ->]. cbn [length]. lia.
Qed.

End Run.

(** C1. Batch result completeness: the call returns as many results as
    there are validated targets, one for each of them (the target ids of the
    results are those of the validated targets, in some order), whatever the
    attempts did and also after a re-drive. A worker always returns a
    result. For every validated target the returned list holds what the
    loop over the futures appended for it, the result the worker returned
    or, when the worker raised, a FAILED result with the text of the
    exception, unless a re-drive brought a result for the id of the target,
    which then stands in the list. Without a re-drive the FAILED result of
    a worker that raised is in the returned list. *)
Theorem C1_batch_result_completeness (max_retries : nat) (command_ : string)
    (timeout_seconds : Z) (w : world) (instances : list instance_data)
    (self : BatchJobManager) :
  let validated_instances :=
    _validate_ssm_instances (describe_instance_information w) instances in
  let results :=
    fst (execute_batch_command max_retries command_ timeout_seconds w instances self) in
  length results = length validated_instances /\
  map instance_id results ≡ₚ map InstanceId validated_instances /\
  (forall instance ssm st, exists r st',
     execute_on_instance max_retries command_ timeout_seconds instance ssm st
     = (Some r, st')) /\
  (forall i instance,
     validated_instances !! i = Some instance ->
     exists x,
       appended_for max_retries command_ timeout_seconds (worker_of w i) instance x /\
       instance_id x = InstanceId instance /\
       (In x results \/
        exists w' targets rr,
          retry_choice w = Some w' /\
          In rr (fst (execute_batch_command max_retries command_ timeout_seconds
                        w' targets self)) /\
          instance_id rr = InstanceId instance /\
          In rr results)) /\
  (retry_choice w = None ->
   forall i instance e,
     validated_instances !! i = Some instance ->
     client (worker_of w i) = ClientRaises e ->
     exists r,
       In r results /\
       instance_id r = InstanceId instance /\
       instance_name r = Name instance /\
       command r = command_ /\
       status r = "FAILED" /\
       output r = "" /\
       error r = "Executor error: " +:+ e).
Proof.
  intros validated_instances results.
  assert (Hids : map instance_id results ≡ₚ map InstanceId validated_instances)
    by apply execute_batch_command_ids.
  assert (Hall : forall i instance,
     validated_instances !! i = Some instance ->
     exists x,
       appended_for max_retries command_ timeout_seconds (worker_of w i) instance x /\
       instance_id x = InstanceId instance /\
       (In x results \/
        exists w' targets rr,
          retry_choice w = Some w' /\
          In rr (fst (execute_batch_command max_retries command_ timeout_seconds
                        w' targets self)) /\
          instance_id rr = InstanceId instance /\
          In rr results)).
  { intros i instance Hi.
    eexists. split; [apply future_result_spec|]. split; [apply run_worker_id|].
    apply (execute_batch_command_outcome max_retries command_ timeout_seconds
             w instances self i instance Hi). }
  split; [|split; [exact Hids|split; [|split; [exact Hall|]]]].
  - rewrite <- (length_map instance_id), <- (length_map InstanceId validated_instances).
    apply Permutation_length, Hids.
  - intros instance ssm st.
    destruct (WorkerTheory.retry_loop_returns max_retries command_ timeout_seconds
                instance ssm max_retries 0%nat st) as (r & st' & Hrun & _); [lia|].
    exists r, st'. exact Hrun.
  - intros Hnone i instance e Hi He.
    destruct (Hall i instance Hi) as (x & Hx & _ & [Hin|(w' & _ & _ & Hsome & _)]);
      [|congruence].
    unfold appended_for in Hx. rewrite He in Hx. subst x.
    eexists. split; [exact Hin|]. repeat split.
Qed.

Lemma C1_batch_result_completeness_witness :
  exists r,
    In r (fst (execute_batch_command 3 "uptime" 120 Scenarios.broken_round
                 [Scenarios.web1; Scenarios.web2] Scenarios.new_manager)) /\
    instance_id r = "i-0a1" /\
    instance_name r = "web-1" /\
    command r = "uptime" /\
    status r = "FAILED" /\
    output r = "" /\
    error r = "Executor error: " +:+ "Could not connect to the endpoint URL".
Proof.
  apply (proj2 (proj2 (proj2 (proj2
           (C1_batch_result_completeness 3 "uptime" 120 Scenarios.broken_round
              [Scenarios.web1; Scenarios.web2] Scenarios.new_manager))))
           eq_refl 0%nat Scenarios.web1).
  - reflexivity.
  - reflexivity.
Defined.




End ManagerTheory.

(** * More on the worker of one target *)

Module WorkerFacts.

Import Batch WorkerTheory Observe.

Section Worker.

Variable max_retries : nat.
Variable command_ : string.
Variable timeout_seconds : Z.
Variable instance : instance_data.
Variable ssm : ssm_client.

Local Abbreviation poll_loop := (poll_loop max_retries command_ timeout_seconds instance ssm).
Local Abbreviation attempt_body := (attempt_body max_retries command_ timeout_seconds instance ssm).
Local Abbreviation retry_loop := (retry_loop max_retries command_ timeout_seconds instance ssm).
Local Abbreviation execute_on_instance :=
  (execute_on_instance max_retries command_ timeout_seconds instance ssm).
Local Abbreviation max_wait := (max_wait timeout_seconds).

Ltac poll_cases :=
  match goal with
  | |- context [get_command_invocation ?s ?a ?k] =>
      destruct (get_command_invocation s a k) as [latency [result|[code msg|msg]]] eqn:Hreply
  | H : context [get_command_invocation ?s ?a ?k] |- _ =>
      destruct (get_command_invocation s a k) as [latency [result|[code msg|msg]]] eqn:Hreply
  end.

(** The status queries of one polling loop are numbered from where the
    loop stands, without gaps. *)
Lemma poll_loop_polls attempt start_time remaining :
  (remaining <= max_attempts)%nat ->
  forall waited st e st',
    poll_loop attempt start_time remaining waited st = (e, st') ->
    exists n,
      (n <= remaining)%nat /\
      polls_made (trace st')
      = polls_made (trace st)
        ++ map (pair attempt) (seq (S (max_attempts - remaining)) n).
Proof.
  induction remaining as [|remaining IH]; intros Hle waited st e st' Hrun;
    cbn [Batch.poll_loop] in Hrun.
  - injection Hrun as <- <-. exists 0%nat. split; [lia|]. cbn. symmetry. apply app_nil_r.
  - assert (Hstop : forall x, (x, st) = (e, st') ->
              exists n, (n <= S remaining)%nat /\
                polls_made (trace st')
                = polls_made (trace st)
                  ++ map (pair attempt) (seq (S (max_attempts - S remaining)) n)).
    { intros x [= <- <-]. exists 0%nat. split; [lia|]. cbn. symmetry. apply app_nil_r. }
    assert (Hone : forall x ev,
              ev = GetCommandInvocation attempt (max_attempts - remaining) ->
              forall latency, (x, call ev latency st) = (e, st') ->
              exists n, (n <= S remaining)%nat /\
                polls_made (trace st')
                = polls_made (trace st)
                  ++ map (pair attempt) (seq (S (max_attempts - S remaining)) n)).
    { intros x ev -> latency [= <- <-]. exists 1%nat. split; [lia|].
      cbn [call trace]. rewrite polls_made_app. cbn [polls_made flat_map seq map app].
      replace (S (max_attempts - S remaining))%nat with (max_attempts - remaining)%nat by lia.
      reflexivity. }
    assert (Hmore : forall seconds latency w,
              poll_loop attempt start_time remaining w
                (sleep seconds
                   (call (GetCommandInvocation attempt (max_attempts - remaining)) latency st))
              = (e, st') ->
              exists n, (n <= S remaining)%nat /\
                polls_made (trace st')
                = polls_made (trace st)
                  ++ map (pair attempt) (seq (S (max_attempts - S remaining)) n)).
    { intros seconds latency w Hrec.
      apply IH in Hrec as (n & Hn & Htr); [|lia].
      exists (S n). split; [lia|]. rewrite Htr. cbn [sleep call trace].
      rewrite !polls_made_app. cbn [polls_made flat_map seq map app].
      rewrite app_nil_r, <- app_assoc. cbn [app].
      replace (S (max_attempts - S remaining))%nat with (max_attempts - remaining)%nat by lia.
      reflexivity. }
    destruct (waited <? max_wait); [|eapply Hstop; exact Hrun].
    poll_cases.
    + destruct (str_in (Status result) terminal_statuses); [|eapply Hmore; exact Hrun].
      destruct (String.eqb (Status result) "Success"); [eapply Hone; [reflexivity|exact Hrun]|].
      destruct (attempt <? max_retries)%nat; eapply Hone; try exact Hrun; reflexivity.
    + destruct (String.eqb code "InvocationDoesNotExist"); eapply Hmore; exact Hrun.
    + eapply Hone; [reflexivity|exact Hrun].
Qed.

Lemma polls_of_app attempt tr1 tr2 :
  polls_of attempt (tr1 ++ tr2) = (polls_of attempt tr1 + polls_of attempt tr2)%nat.
Proof.
  unfold polls_of. rewrite polls_made_app, List.filter_app, length_app. reflexivity.
Qed.

Lemma polls_of_own attempt first n :
  length (List.filter (fun p : nat * nat => (fst p =? attempt)%nat)
            (map (pair attempt) (seq first n))) = n.
Proof.
  revert first. induction n as [|n IH]; intros first; cbn; [reflexivity|].
  rewrite Nat.eqb_refl. cbn. f_equal. apply IH.
Qed.

Lemma polls_of_other attempt other first n :
  other <> attempt ->
  length (List.filter (fun p : nat * nat => (fst p =? attempt)%nat)
            (map (pair other) (seq first n))) = 0%nat.
Proof.
  intros Hne. revert first. induction n as [|n IH]; intros first; cbn; [reflexivity|].
  destruct (Nat.eqb_spec other attempt) as [Heq|_]; [contradiction|]. apply IH.
Qed.

Lemma backed_off_polls attempt st :
  polls_made (trace (backed_off attempt st)) = polls_made (trace st).
Proof.
  unfold backed_off. destruct (0 <? attempt)%nat; [|reflexivity].
  cbn. rewrite polls_made_app. cbn. apply app_nil_r.
Qed.

Lemma attempt_body_polls attempt st x st' :
  attempt_body attempt st = (x, st') ->
  exists n,
    (n <= max_attempts)%nat /\
    polls_made (trace st')
    = polls_made (trace st) ++ map (pair attempt) (seq 1 n).
Proof.
  unfold Batch.attempt_body.
  destruct (send_command ssm attempt) as [latency [command_id|e]]; intros Hrun.
  - destruct (poll_loop attempt (clock st) max_attempts 0
                (call (SendCommand attempt) latency (backed_off attempt st)))
      as [pe st1] eqn:Hpoll.
    apply poll_loop_polls in Hpoll as (n & Hn & Htr); [|lia].
    assert (Hst : st' = st1).
    { destruct pe as [r|msg|]; [injection Hrun as _ <-; reflexivity| |].
      - apply handle_sound in Hrun as [-> _]. reflexivity.
      - destruct (attempt <? max_retries)%nat; injection Hrun as _ <-; reflexivity. }
    subst st1. exists n. split; [exact Hn|]. rewrite Htr. cbn [call trace].
    rewrite polls_made_app, backed_off_polls. cbn [polls_made flat_map app].
    rewrite app_nil_r, Nat.sub_diag. reflexivity.
  - apply handle_sound in Hrun as [-> _]. exists 0%nat. split; [lia|].
    cbn [call trace]. rewrite polls_made_app, backed_off_polls. cbn. rewrite !app_nil_r.
    reflexivity.
Qed.

Lemma attempt_body_polls_of attempt st x st' :
  attempt_body attempt st = (x, st') ->
  exists n, (n <= max_attempts)%nat /\
    forall a, polls_of a (trace st')
              = (polls_of a (trace st) + if Nat.eqb attempt a then n else 0)%nat.
Proof.
  intros Hbody. apply attempt_body_polls in Hbody as (n & Hn & Hpolls).
  exists n. split; [exact Hn|]. intros a.
  unfold polls_of. rewrite Hpolls, List.filter_app, length_app.
  destruct (Nat.eqb_spec attempt a) as [->|Hne];
    [rewrite polls_of_own | rewrite polls_of_other by exact Hne]; reflexivity.
Qed.

Lemma retry_loop_bounds remaining :
  forall attempt st r st',
    retry_loop remaining attempt st = (r, st') ->
    (exists k, (k <= remaining)%nat /\
       attempts_made (trace st') = attempts_made (trace st) ++ seq attempt (S k)) /\
    (forall a, (polls_of a (trace st') <= polls_of a (trace st) + max_attempts)%nat) /\
    (forall a, (a < attempt)%nat -> polls_of a (trace st') = polls_of a (trace st)).
Proof.
  induction remaining as [|remaining IH]; intros attempt st r st' Hrun;
    cbn [Batch.retry_loop] in Hrun;
    destruct (attempt_body attempt st) as [[r0|] st1] eqn:Hbody;
    pose proof (attempt_body_sound _ _ _ _ _ _ _ _ _ Hbody) as (Htr & _);
    pose proof (attempt_body_polls_of _ _ _ _ Hbody) as (n & Hn & Hmine).
  1,2,3: injection Hrun as <- <-.
  1,2,3: split; [exists 0%nat; split; [lia | exact Htr]|].
  1,2,3: split; intros a; [|intros Ha]; rewrite Hmine;
         destruct (Nat.eqb_spec attempt a); lia.
  apply IH in Hrun as ((k & Hk & Htr') & Hpolls' & Hbelow).
  split; [exists (S k); split; [lia|]; rewrite Htr', Htr, <- app_assoc; reflexivity|].
  split.
  - intros a. destruct (Nat.eqb_spec attempt a) as [->|Hne].
    + rewrite Hbelow by lia. rewrite Hmine, Nat.eqb_refl. lia.
    + specialize (Hpolls' a). rewrite Hmine in Hpolls'.
      destruct (Nat.eqb_spec attempt a); [contradiction|]. lia.
  - intros a Ha. rewrite Hbelow by lia. rewrite Hmine.
    destruct (Nat.eqb_spec attempt a); lia.
Qed.

(** *** The first success ends the retries *)

Local Abbreviation success_of := (success_of ssm).

Lemma poll_loop_success attempt start_time remaining :
  forall waited st r st',
    poll_loop attempt start_time remaining waited st = (PollReturn r, st') ->
    status r = "SUCCESS" ->
    success_of attempt r.
Proof.
  induction remaining as [|remaining IH]; intros waited st r st' Hrun Hs;
    cbn [Batch.poll_loop] in Hrun; [discriminate|].
  destruct (waited <? max_wait); [|discriminate].
  poll_cases.
  - destruct (str_in (Status result) terminal_statuses); [|eapply IH; eassumption].
    destruct (String.eqb (Status result) "Success") eqn:Hok.
    + injection Hrun as <- <-. split; [reflexivity|].
      exists (max_attempts - remaining)%nat, latency, result.
      split; [exact Hreply|]. split; [apply String.eqb_eq, Hok | reflexivity].
    + destruct (attempt <? max_retries)%nat; [discriminate|].
      injection Hrun as <- <-. discriminate Hs.
  - destruct (String.eqb code "InvocationDoesNotExist"); eapply IH; eassumption.
  - discriminate.
Qed.

Lemma attempt_body_success attempt st r st' :
  attempt_body attempt st = (Return r, st') ->
  status r = "SUCCESS" ->
  success_of attempt r.
Proof.
  unfold Batch.attempt_body.
  destruct (send_command ssm attempt) as [latency [command_id|e]]; intros Hrun Hs.
  - destruct (poll_loop attempt (clock st) max_attempts 0
                (call (SendCommand attempt) latency (backed_off attempt st)))
      as [[r1|msg|] st1] eqn:Hpoll.
    + injection Hrun as <- <-. eapply poll_loop_success; eassumption.
    + unfold Batch.handle in Hrun. destruct (attempt <? max_retries)%nat; [discriminate|].
      injection Hrun as <- <-. discriminate Hs.
    + destruct (attempt <? max_retries)%nat; [discriminate|].
      injection Hrun as <- <-. discriminate Hs.
  - unfold Batch.handle in Hrun.
    destruct e; destruct (attempt <? max_retries)%nat; try discriminate;
      injection Hrun as <- <-; discriminate Hs.
Qed.

Lemma succeeding_attempt attempt st :
  attempt_succeeds max_retries command_ timeout_seconds instance ssm attempt = true ->
  exists r st', attempt_body attempt st = (Return r, st') /\ status r = "SUCCESS".
Proof.
  unfold attempt_succeeds. intros Hok.
  pose proof (attempt_body_status max_retries command_ timeout_seconds instance ssm
                attempt st {| clock := 0; trace := [] |}) as Hst.
  destruct (attempt_body attempt {| clock := 0; trace := [] |}) as [[r0|] st0];
    cbn in Hok, Hst; [|discriminate].
  destruct (attempt_body attempt st) as [[r|] st']; cbn in Hst; [|discriminate].
  exists r, st'. split; [reflexivity|]. injection Hst as ->. apply String.eqb_eq, Hok.
Qed.

Lemma retry_loop_first_success remaining :
  forall attempt st k,
    (attempt + remaining = max_retries)%nat ->
    (attempt <= k <= max_retries)%nat ->
    (forall a, (attempt <= a < k)%nat ->
       attempt_succeeds max_retries command_ timeout_seconds instance ssm a = false) ->
    attempt_succeeds max_retries command_ timeout_seconds instance ssm k = true ->
    exists r st_k st',
      retry_loop remaining attempt st = (Some r, st') /\
      attempt_body k st_k = (Return r, st') /\
      status r = "SUCCESS" /\
      attempts_made (trace st')
      = attempts_made (trace st) ++ seq attempt (S (k - attempt)).
Proof.
  induction remaining as [|remaining IH]; intros attempt st k Hsum Hk Hfail Hok;
    cbn [Batch.retry_loop].
  - assert (k = attempt) as -> by lia.
    destruct (succeeding_attempt attempt st Hok) as (r & st' & Hbody & Hs).
    rewrite Hbody. exists r, st, st'. split; [reflexivity|]. split; [exact Hbody|].
    split; [exact Hs|].
    apply attempt_body_sound in Hbody as (Htr & _). rewrite Htr, Nat.sub_diag. reflexivity.
  - destruct (Nat.eq_dec k attempt) as [->|Hne].
    + destruct (succeeding_attempt attempt st Hok) as (r & st' & Hbody & Hs).
      rewrite Hbody. exists r, st, st'. split; [reflexivity|]. split; [exact Hbody|].
      split; [exact Hs|].
      apply attempt_body_sound in Hbody as (Htr & _). rewrite Htr, Nat.sub_diag. reflexivity.
    + destruct (attempt_body attempt st) as [[r0|] st1] eqn:Hbody;
        pose proof (attempt_body_sound _ _ _ _ _ _ _ _ _ Hbody) as (Htr & _ & _ & Hearly).
      * exfalso. eapply failing_attempt; [apply (Hfail attempt); lia | exact Hbody |].
        apply (Hearly ltac:(apply Nat.ltb_lt; lia) r0 eq_refl).
      * destruct (IH (S attempt) st1 k ltac:(lia) ltac:(lia)) as (r & st_k & st' & Hloop & Hb & Hs & Htr');
          [intros a Ha; apply Hfail; lia | exact Hok |].
        exists r, st_k, st'. split; [exact Hloop|]. split; [exact Hb|]. split; [exact Hs|].
        rewrite Htr', Htr, <- app_assoc.
        replace (S (k - attempt)) with (S (S (k - S attempt))) by lia. reflexivity.
Qed.

(** *** A command that never finishes *)

Lemma sleeps_app tr1 tr2 : sleeps (tr1 ++ tr2) = sleeps tr1 ++ sleeps tr2.
Proof. unfold sleeps. apply flat_map_app. Qed.

Lemma poll_loop_never_terminal attempt start_time remaining :
  never_terminal ssm attempt ->
  forall waited st,
  exists n st',
    poll_loop attempt start_time remaining waited st = (PollExhausted, st') /\
    polls_of attempt (trace st') = (polls_of attempt (trace st) + n)%nat /\
    sleeps (trace st') = sleeps (trace st) ++ repeat 3 n /\
    (n <= remaining)%nat /\
    (n = remaining \/ max_wait <= waited + 3 * Z.of_nat n) /\
    ((0 < n)%nat -> waited + 3 * (Z.of_nat n - 1) < max_wait).
Proof.
  intros Hall. induction remaining as [|remaining IH]; intros waited st.
  - exists 0%nat, st. cbn. rewrite app_nil_r.
    split; [reflexivity|]. split; [lia|]. split; [reflexivity|]. split; [lia|].
    split; [left; reflexivity | lia].
  - cbn [Batch.poll_loop]. destruct (Z.ltb_spec waited max_wait) as [Hlt|Hge].
    + destruct (Hall (max_attempts - remaining)%nat) as (latency & result & Hreply & Hrunning).
      rewrite Hreply, Hrunning.
      destruct (IH (waited + 3)
                  (sleep 3 (call (GetCommandInvocation attempt (max_attempts - remaining)%nat)
                              latency st)))
        as (n & st' & Hrun & Hpolls & Hsleeps & Hle & Hstop & Hlast).
      exists (S n), st'. split; [exact Hrun|].
      split.
      { rewrite Hpolls. cbn [sleep call trace]. rewrite !polls_of_app.
        unfold polls_of at 2 3. cbn. rewrite Nat.eqb_refl. cbn. lia. }
      split.
      { rewrite Hsleeps. cbn [sleep call trace]. rewrite !sleeps_app. cbn.
        rewrite app_nil_r, <- app_assoc. reflexivity. }
      split; [lia|]. split; [destruct Hstop; [left|right]; lia|].
      intros _. destruct n; [lia|]. specialize (Hlast ltac:(lia)). lia.
    + exists 0%nat, st. cbn. rewrite app_nil_r.
      split; [reflexivity|]. split; [lia|]. split; [reflexivity|]. split; [lia|].
      split; [right; lia | lia].
Qed.

End Worker.

(** X1. A worker never overruns its budget, whatever the remote side
    answers: it sends the command for the attempts 0, 1, ..., k with
    k <= max_retries and for no other, and in each attempt it queries the
    status at most 200 times. *)
Theorem worker_call_bounds (max_retries : nat) (command_ : string) (timeout_seconds : Z)
    (instance : instance_data) (ssm : ssm_client) (st : wstate) :
  let st' :=
    snd (execute_on_instance max_retries command_ timeout_seconds instance ssm st) in
  (exists k, (k <= max_retries)%nat /\
     attempts_made (trace st') = attempts_made (trace st) ++ seq 0 (S k)) /\
  (forall attempt,
     (polls_of attempt (trace st') <= polls_of attempt (trace st) + 200)%nat).
Proof.
  intros st'.
  destruct (execute_on_instance max_retries command_ timeout_seconds instance ssm st)
    as [r st1] eqn:Hrun.
  subst st'. cbn [snd]. unfold Batch.execute_on_instance in Hrun.
  apply retry_loop_bounds in Hrun as (Hk & Hpolls & _). split; [exact Hk | exact Hpolls].
Qed.



(** X3. A command that never reaches a terminal status: the attempt
    queries the status every 3 seconds and stops at the first of its two
    ceilings, after 200 queries or once the waits add up to the budget
    [timeout_seconds + 30]; it then goes on to the next attempt, or, on the
    last attempt, returns a TIMEOUT result whose error text names the
    budget. A budget above 600 seconds is never used up: the 200 queries
    come first. *)
Theorem attempt_times_out (max_retries : nat) (command_ : string) (timeout_seconds : Z)
    (instance : instance_data) (ssm : ssm_client) (attempt : nat) (st : wstate) :
  (exists latency command_id, send_command ssm attempt = (latency, SendOk command_id)) ->
  never_terminal ssm attempt ->
  exists n x st',
    attempt_body max_retries command_ timeout_seconds instance ssm attempt st = (x, st') /\
    polls_of attempt (trace st') = (polls_of attempt (trace st) + n)%nat /\
    sleeps (trace st') = sleeps (trace (backed_off attempt st)) ++ repeat 3 n /\
    (n <= 200)%nat /\
    (n = 200%nat \/ max_wait timeout_seconds <= 3 * Z.of_nat n) /\
    ((0 < n)%nat -> 3 * (Z.of_nat n - 1) < max_wait timeout_seconds) /\
    (600 < max_wait timeout_seconds -> n = 200%nat) /\
    ((attempt < max_retries)%nat -> x = Continue) /\
    ((max_retries <= attempt)%nat ->
     exists r, x = Return r /\ status r = "TIMEOUT" /\
       error r = "Command timed out after " +:+ pretty (max_wait timeout_seconds)
                 +:+ " seconds").
Proof.
  intros (latency & command_id & Hsend) Hnever.
  unfold Batch.attempt_body. rewrite Hsend.
  destruct (poll_loop_never_terminal max_retries command_ timeout_seconds instance ssm
              attempt (clock st) max_attempts Hnever 0
              (call (SendCommand attempt) latency (backed_off attempt st)))
    as (n & st' & Hrun & Hpolls & Hsleeps & Hle & Hstop & Hlast).
  rewrite Hrun. unfold max_attempts in *.
  assert (Hp : polls_of attempt (trace st') = (polls_of attempt (trace st) + n)%nat).
  { rewrite Hpolls. cbn [call trace]. rewrite polls_of_app.
    unfold polls_of. rewrite backed_off_polls. cbn. lia. }
  assert (Hs : sleeps (trace st') = sleeps (trace (backed_off attempt st)) ++ repeat 3 n).
  { rewrite Hsleeps. cbn [call trace]. rewrite sleeps_app. cbn. rewrite app_nil_r.
    reflexivity. }
  destruct (attempt <? max_retries)%nat eqn:Hlt.
  - exists n, Continue, st'. split; [reflexivity|]. split; [exact Hp|]. split; [exact Hs|].
    split; [exact Hle|]. split; [destruct Hstop; [left|right]; lia|].
    split; [intros Hn; specialize (Hlast Hn); lia|].
    split; [intros Hbig; destruct Hstop; lia|].
    split; [reflexivity|]. intros Hge. apply Nat.ltb_lt in Hlt. lia.
  - eexists n, (Return _), st'. split; [reflexivity|]. split; [exact Hp|]. split; [exact Hs|].
    split; [exact Hle|]. split; [destruct Hstop; [left|right]; lia|].
    split; [intros Hn; specialize (Hlast Hn); lia|].
    split; [intros Hbig; destruct Hstop; lia|].
    split; [intros Hlt'; apply Nat.ltb_ge in Hlt; lia|].
    intros _. eexists. split; [reflexivity|]. split; reflexivity.
Qed.

Lemma attempt_times_out_witness :
  exists n x st',
    attempt_body 3 "uptime" 120 Scenarios.web1 always_running 3%nat Scenarios.at_zero
      = (x, st') /\
    polls_of 3 (trace st') = (polls_of 3 (trace Scenarios.at_zero) + n)%nat /\
    sleeps (trace st') = sleeps (trace (backed_off 3 Scenarios.at_zero)) ++ repeat 3 n /\
    (n <= 200)%nat /\
    (n = 200%nat \/ max_wait 120 <= 3 * Z.of_nat n) /\
    ((0 < n)%nat -> 3 * (Z.of_nat n - 1) < max_wait 120) /\
    (600 < max_wait 120 -> n = 200%nat) /\
    ((3 < 3)%nat -> x = Continue) /\
    ((3 <= 3)%nat ->
     exists r, x = Return r /\ status r = "TIMEOUT" /\
       error r = "Command timed out after " +:+ pretty (max_wait 120) +:+ " seconds").
Proof.
  apply (attempt_times_out 3 "uptime" 120 Scenarios.web1 always_running 3%nat
           Scenarios.at_zero).
  - exists 0, "c-1". reflexivity.
  - intros attempt_count. eexists 0, _. split; reflexivity.
Defined.

End WorkerFacts.

(** * More on the batch manager *)

Module ManagerFacts.

Import Batch ManagerTheory Observe.

(** *** Grouping by region *)

Lemma filter_snoc_same region inst processed :
  region_of inst = region ->
  List.filter (same_region region) (processed ++ [inst])
  = List.filter (same_region region) processed ++ [inst].
Proof.
  intros Hr. rewrite List.filter_app. cbn. unfold same_region at 2.
  rewrite Hr, String.eqb_refl. reflexivity.
Qed.

Lemma filter_snoc_other region inst processed :
  region_of inst <> region ->
  List.filter (same_region region) (processed ++ [inst])
  = List.filter (same_region region) processed.
Proof.
  intros Hr. rewrite List.filter_app. cbn. unfold same_region at 2.
  apply String.eqb_neq in Hr. rewrite Hr. apply app_nil_r.
Qed.

Lemma add_to_region_keys region inst groups :
  map fst (add_to_region region inst groups)
  = map fst groups ++ (if in_dec string_dec region (map fst groups) then [] else [region]).
Proof.
  induction groups as [|[r g] groups IH].
  - cbn. reflexivity.
  - cbn [add_to_region]. destruct (String.eqb_spec r region) as [->|Hne]; cbn [map fst].
    + destruct (in_dec string_dec region (region :: map fst groups)) as [_|Hout].
      * rewrite app_nil_r. reflexivity.
      * exfalso. apply Hout. left. reflexivity.
    + rewrite IH. cbn [app]. f_equal. f_equal.
      destruct (in_dec string_dec region (map fst groups)) as [Hin|Hout];
        destruct (in_dec string_dec region (r :: map fst groups)) as [Hin'|Hout'];
        try reflexivity.
      * exfalso. apply Hout'. right. exact Hin.
      * exfalso. destruct Hin' as [Heq|Hin']; [contradiction | apply Hout, Hin'].
Qed.

Lemma add_to_region_groups region inst processed groups :
  region_of inst = region ->
  List.NoDup (map fst groups) ->
  (forall r g, In (r, g) groups -> g = List.filter (same_region r) processed) ->
  (~ In region (map fst groups) -> List.filter (same_region region) processed = []) ->
  forall r g, In (r, g) (add_to_region region inst groups) ->
    g = List.filter (same_region r) (processed ++ [inst]).
Proof.
  intros Hregion. induction groups as [|[r0 g0] groups IH]; intros Hnd Hgroups Hnew r g; cbn.
  - intros [[= <- <-]|[]]. rewrite filter_snoc_same by exact Hregion.
    rewrite Hnew by tauto. reflexivity.
  - cbn in Hnd. apply List.NoDup_cons_iff in Hnd as [Hfresh Hnd].
    destruct (String.eqb_spec r0 region) as [->|Hne]; cbn.
    + intros [[= <- <-]|Hin].
      * rewrite filter_snoc_same by exact Hregion. f_equal. apply Hgroups. left. reflexivity.
      * rewrite filter_snoc_other.
        -- apply Hgroups. right. exact Hin.
        -- rewrite Hregion. intros <-. apply Hfresh.
           apply in_map_iff. exists (region, g). split; [reflexivity | exact Hin].
    + intros [[= <- <-]|Hin].
      * rewrite filter_snoc_other.
        -- apply Hgroups. left. reflexivity.
        -- rewrite Hregion. intros Heq. apply Hne. symmetry. exact Heq.
      * apply IH; [exact Hnd | | | exact Hin].
        -- intros r' g' Hin'. apply Hgroups. right. exact Hin'.
        -- intros Hout. apply Hnew. cbn. intros [Heq|Hin']; [contradiction | contradiction].
Qed.

Lemma add_to_region_grouped inst groups processed :
  grouped groups processed ->
  grouped (add_to_region (region_of inst) inst groups) (processed ++ [inst]).
Proof.
  intros (Hnd & Hgroups & Hcover).
  assert (Hnew : ~ In (region_of inst) (map fst groups) ->
                 List.filter (same_region (region_of inst)) processed = []).
  { intros Hout. destruct (List.filter _ processed) as [|x l] eqn:Hf; [reflexivity|].
    exfalso. assert (Hx : In x (List.filter (same_region (region_of inst)) processed))
      by (rewrite Hf; left; reflexivity).
    apply filter_In in Hx as [Hx Hr]. apply String.eqb_eq in Hr.
    apply Hout. rewrite <- Hr. apply Hcover, Hx. }
  split; [|split].
  - rewrite add_to_region_keys.
    destruct (in_dec string_dec (region_of inst) (map fst groups)) as [Hin|Hout].
    + rewrite app_nil_r. exact Hnd.
    + apply NoDup_ListNoDup, NoDup_app. split; [apply NoDup_ListNoDup, Hnd|].
      split; [|apply NoDup_singleton].
      intros x Hx Hx'. apply list_elem_of_singleton in Hx'. subst.
      apply Hout, list_elem_of_In, Hx.
  - apply add_to_region_groups; [reflexivity | exact Hnd | exact Hgroups | exact Hnew].
  - intros x Hx. rewrite add_to_region_keys. apply in_app_iff.
    apply in_app_iff in Hx as [Hx|[<-|[]]].
    + left. apply Hcover, Hx.
    + destruct (in_dec string_dec (region_of inst) (map fst groups)) as [Hin|Hout];
        [left; exact Hin | right; left; reflexivity].
Qed.

Lemma group_by_region_grouped instances :
  grouped (group_by_region instances) instances.
Proof.
  unfold group_by_region.
  assert (Hgen : forall groups processed,
             grouped groups processed ->
             grouped (fold_left (fun g inst => add_to_region (region_of inst) inst g)
                        instances groups) (processed ++ instances)).
  { induction instances as [|inst instances IH]; intros groups processed Hg; cbn.
    - rewrite app_nil_r. exact Hg.
    - replace (processed ++ inst :: instances) with ((processed ++ [inst]) ++ instances)
        by (rewrite <- app_assoc; reflexivity).
      apply IH, add_to_region_grouped, Hg. }
  apply (Hgen [] []). split; [constructor|]. split; intros; contradiction.
Qed.

Lemma validate_fold describe groups :
  forall validated,
    fold_left (validate_region describe) groups validated
    = validated ++ flat_map (kept describe) groups.
Proof.
  induction groups as [|[region g] groups IH]; intros validated; cbn.
  - symmetry. apply app_nil_r.
  - rewrite IH. unfold kept at 2. cbn.
    destruct (describe region (map InstanceId g)); rewrite <- app_assoc; reflexivity.
Qed.

Lemma validated_eq describe instances :
  _validate_ssm_instances describe instances
  = flat_map (kept describe) (group_by_region instances).
Proof. unfold _validate_ssm_instances. apply validate_fold. Qed.

Lemma str_in_In s l : str_in s l = true <-> In s l.
Proof.
  unfold str_in. rewrite existsb_exists. split.
  - intros (x & Hx & Heq). apply String.eqb_eq in Heq. subst. exact Hx.
  - intros Hin. exists s. split; [exact Hin | apply String.eqb_refl].
Qed.

Lemma online_In id infos :
  In id (online_instances infos) <-> In (id, "Online") infos.
Proof.
  unfold online_instances. rewrite in_map_iff. split.
  - intros ([id' st] & Hid & Hin). cbn in Hid. subst id'.
    apply filter_In in Hin as [Hin Hst]. cbn in Hst. apply String.eqb_eq in Hst.
    subst. exact Hin.
  - intros Hin. exists (id, "Online"). split; [reflexivity|].
    apply filter_In. split; [exact Hin | reflexivity].
Qed.

Lemma validated_In (describe : string -> list string -> describe_reply)
    (instances : list instance_data) (inst : instance_data) :
  In inst (_validate_ssm_instances describe instances) <->
  In inst instances /\
  match describe (region_of inst)
          (map InstanceId (List.filter (same_region (region_of inst)) instances)) with
  | DescribeOk infos => In (InstanceId inst, "Online") infos
  | DescribeRaises _ => True
  end.
Proof.
  destruct (group_by_region_grouped instances) as (Hnd & Hgroups & Hcover).
  rewrite validated_eq, in_flat_map. split.
  - intros ([r g] & Hgrp & Hin). pose proof (Hgroups r g Hgrp) as Hg.
    unfold kept in Hin. cbn [fst snd] in Hin.
    assert (Hmem : In inst g).
    { destruct (describe r (map InstanceId g)); [apply filter_In in Hin as [Hin _]|];
        exact Hin. }
    rewrite Hg in Hmem. apply filter_In in Hmem as [Hmem Hr].
    apply String.eqb_eq in Hr. split; [exact Hmem|].
    rewrite Hr, <- Hg.
    destruct (describe r (map InstanceId g)) as [infos|e]; [|exact I].
    apply filter_In in Hin as [_ Hon]. apply online_In, str_in_In, Hon.
  - intros [Hmem Hkeep].
    pose proof (Hcover inst Hmem) as Hkey. apply in_map_iff in Hkey as ([r g] & Hr & Hgrp).
    cbn in Hr. subst r. exists (region_of inst, g). split; [exact Hgrp|].
    pose proof (Hgroups _ _ Hgrp) as Hg. rewrite <- Hg in Hkeep.
    assert (Hin : In inst g).
    { rewrite Hg. apply filter_In. split; [exact Hmem | apply String.eqb_refl]. }
    unfold kept. cbn [fst snd].
    destruct (describe (region_of inst) (map InstanceId g)) as [infos|e]; [|exact Hin].
    apply filter_In. split; [exact Hin|]. apply str_in_In, online_In, Hkeep.
Qed.

(** X4. What the validation keeps: an instance is among the validated
    targets exactly when it is among the given ones and the status query for
    its region, asked about the instances of that region, either raised (the
    whole group passes unchecked) or reports the instance as [Online]; the
    validation never invents a target and never passes one more often than it
    was given. *)
Theorem validation_keeps (describe : string -> list string -> describe_reply)
    (instances : list instance_data) (inst : instance_data) :
  (In inst (_validate_ssm_instances describe instances) <->
   In inst instances /\
   match describe (region_of inst)
           (map InstanceId (List.filter (same_region (region_of inst)) instances)) with
   | DescribeOk infos => In (InstanceId inst, "Online") infos
   | DescribeRaises _ => True
   end) /\
  _validate_ssm_instances describe instances ⊆+ instances.
Proof. split; [apply validated_In | apply validated_submseteq]. Qed.

Lemma validation_keeps_witness :
  In Scenarios.web1
    (_validate_ssm_instances status_unavailable [Scenarios.web1; Scenarios.web2]).
Proof.
  apply (proj1 (validation_keeps status_unavailable [Scenarios.web1; Scenarios.web2]
                  Scenarios.web1)).
  split; [left; reflexivity | exact I].
Defined.

Section Run.

Variable max_retries : nat.
Variable command_ : string.
Variable timeout_seconds : Z.

Local Abbreviation run_pool := (run_pool max_retries command_ timeout_seconds).
Local Abbreviation execute_batch_command :=
  (execute_batch_command max_retries command_ timeout_seconds).

Lemma replace_first_lookup retry_result results i r :
  NoDup (map instance_id results) ->
  results !! i = Some r ->
  replace_first retry_result results !! i
  = Some (if String.eqb (instance_id r) (instance_id retry_result)
          then retry_result else r).
Proof.
  revert i. induction results as [|r0 results IH]; intros i Hnd Hi; [discriminate|].
  cbn in Hnd. apply NoDup_cons in Hnd as [Hfresh Hnd]. cbn [replace_first].
  destruct i as [|i]; cbn in Hi.
  - injection Hi as ->.
    destruct (String.eqb (instance_id r) (instance_id retry_result)); reflexivity.
  - destruct (String.eqb_spec (instance_id r0) (instance_id retry_result)) as [Heq|Hne]; cbn.
    + rewrite Hi. f_equal.
      destruct (String.eqb_spec (instance_id r) (instance_id retry_result)) as [Heq'|_];
        [|reflexivity].
      exfalso. apply Hfresh. rewrite Heq, <- Heq'.
      apply list_elem_of_In, in_map, list_elem_of_In, list_elem_of_lookup. eauto.
    + apply IH; assumption.
Qed.

Lemma find_fresh (x : BatchJobResult) (l : list BatchJobResult) :
  instance_id x ∉ map instance_id l ->
  List.find (fun rr => String.eqb (instance_id rr) (instance_id x)) l = None.
Proof.
  intros Hout. destruct (List.find _ l) as [rr|] eqn:Hfind; [|reflexivity].
  exfalso. apply List.find_some in Hfind as [Hin Heq]. apply String.eqb_eq in Heq.
  apply Hout. rewrite <- Heq. apply list_elem_of_In, in_map, Hin.
Qed.

Lemma patch_lookup retry_results :
  forall results i r,
    NoDup (map instance_id results) ->
    NoDup (map instance_id retry_results) ->
    results !! i = Some r ->
    patch retry_results results !! i
    = Some (match List.find (fun rr => String.eqb (instance_id rr) (instance_id r))
                    retry_results with
            | Some rr => rr
            | None => r
            end).
Proof.
  induction retry_results as [|rr0 retry_results IH]; intros results i r Hnd Hnd' Hi.
  - exact Hi.
  - change (patch (rr0 :: retry_results) results)
      with (patch retry_results (replace_first rr0 results)).
    cbn in Hnd'. apply NoDup_cons in Hnd' as [Hfresh Hnd'].
    pose proof (replace_first_lookup rr0 results i r Hnd Hi) as Hstep.
    rewrite (IH _ _ _ ltac:(rewrite replace_first_ids; exact Hnd) Hnd' Hstep).
    cbn [List.find]. rewrite (String.eqb_sym (instance_id rr0) (instance_id r)).
    destruct (String.eqb (instance_id r) (instance_id rr0)); [|reflexivity].
    rewrite (find_fresh rr0 retry_results Hfresh). reflexivity.
Qed.

Lemma failed_instances_failed validated results x :
  In x (map InstanceId (failed_instances validated results)) ->
  exists r, In r results /\ status r <> "SUCCESS" /\ instance_id r = x.
Proof.
  induction results as [|r results IH]; cbn; [tauto|].
  rewrite map_app, in_app_iff. intros [Hhere|Hrest].
  - destruct (String.eqb_spec (status r) "SUCCESS") as [_|Hne]; [destruct Hhere|].
    destruct (List.find _ validated) as [inst|] eqn:Hfind; [|destruct Hhere].
    apply List.find_some in Hfind as [_ Heq]. apply String.eqb_eq in Heq.
    destruct Hhere as [<-|[]]. exists r. split; [left; reflexivity|]. split; [exact Hne|].
    symmetry. exact Heq.
  - destruct (IH Hrest) as (r' & Hin & Hs & Hid). exists r'. split; [right; exact Hin|].
    split; assumption.
Qed.

Lemma NoDup_ids_inj (l : list BatchJobResult) x y :
  NoDup (map instance_id l) -> In x l -> In y l -> instance_id x = instance_id y -> x = y.
Proof.
  induction l as [|z l IH]; intros Hnd Hx Hy Heq; [destruct Hx|].
  cbn in Hnd. apply NoDup_cons in Hnd as [Hfresh Hnd].
  destruct Hx as [->|Hx], Hy as [->|Hy]; [reflexivity| | |apply IH; assumption].
  - exfalso. apply Hfresh. rewrite Heq. apply list_elem_of_In, in_map, Hy.
  - exfalso. apply Hfresh. rewrite <- Heq. apply list_elem_of_In, in_map, Hx.
Qed.

End Run.

(** X5. No reachable target, no run: when the status service answers for
    every region and reports none of the instances as [Online], the call
    returns the empty list and leaves the manager (history and history file)
    as it was, whatever the workers or the user would have done. *)
Theorem no_reachable_target (max_retries : nat) (command_ : string) (timeout_seconds : Z)
    (w : world) (instances : list instance_data) (self : BatchJobManager) :
  (forall region ids, exists infos,
     describe_instance_information w region ids = DescribeOk infos /\
     forall id, ~ In (id, "Online") infos) ->
  _validate_ssm_instances (describe_instance_information w) instances = [] /\
  execute_batch_command max_retries command_ timeout_seconds w instances self = ([], self).
Proof.
  intros Hnone.
  assert (Hv : _validate_ssm_instances (describe_instance_information w) instances = []).
  { destruct (_validate_ssm_instances _ instances) as [|inst l] eqn:Hv; [reflexivity|].
    exfalso.
    assert (Hin : In inst (_validate_ssm_instances (describe_instance_information w)
                             instances)) by (rewrite Hv; left; reflexivity).
    apply validated_In in Hin as [_ Hkeep].
    destruct (Hnone (region_of inst)
                (map InstanceId (List.filter (same_region (region_of inst)) instances)))
      as (infos & Hreply & Hoff).
    rewrite Hreply in Hkeep. exact (Hoff _ Hkeep). }
  split; [exact Hv|].
  destruct w as [describe workers order answer outcome]. rewrite execute_batch_command_eq.
  cbn [describe_instance_information] in Hv. cbv zeta. rewrite Hv. reflexivity.
Qed.

Lemma no_reachable_target_witness :
  _validate_ssm_instances (describe_instance_information offline_round)
    [Scenarios.web1; Scenarios.web2] = [] /\
  execute_batch_command 3 "uptime" 120 offline_round [Scenarios.web1; Scenarios.web2]
    Scenarios.new_manager = ([], Scenarios.new_manager).
Proof.
  apply (no_reachable_target 3 "uptime" 120 offline_round).
  intros region ids. exists (map (fun id => (id, "ConnectionLost")) ids).
  split; [reflexivity|].
  intros id Hin. apply in_map_iff in Hin as (id' & Heq & _). discriminate.
Defined.

(** X6. Re-drive replacement: after an accepted re-drive, every position
    of the returned list still belongs to the same target; it holds the
    re-drive's result for that target when the re-drive produced one, and the
    result of the first pass otherwise; a result that was a success in the
    first pass is never replaced. Targets are told apart by their instance
    id, so the ids of the targets are distinct. *)
Theorem redrive_replacement (max_retries : nat) (command_ : string)
    (timeout_seconds : Z) (describe : string -> list string -> describe_reply)
    (workers : nat -> worker_env) (order : list nat) (w' : world) (outcome : storage_outcome)
    (instances : list instance_data) (self : BatchJobManager) :
  let validated_instances := _validate_ssm_instances describe instances in
  let first_pass :=
    run_pool max_retries command_ timeout_seconds workers order validated_instances in
  let redrive :=
    execute_batch_command max_retries command_ timeout_seconds w'
      (failed_instances validated_instances first_pass) self in
  let outer :=
    execute_batch_command max_retries command_ timeout_seconds
      (mkWorld describe workers order (Some w') outcome) instances self in
  NoDup (map InstanceId instances) ->
  (0 < failed_count first_pass)%nat ->
  map instance_id (fst outer) = map instance_id first_pass /\
  forall i r,
    first_pass !! i = Some r ->
    fst outer !! i
    = Some (match List.find (fun rr => String.eqb (instance_id rr) (instance_id r))
                    (fst redrive) with
            | Some rr => rr
            | None => r
            end) /\
    (status r = "SUCCESS" -> fst outer !! i = Some r).
Proof.
  intros validated_instances first_pass redrive outer Hnd Hfailed.
  assert (Houter : fst outer = patch (fst redrive) first_pass).
  { unfold outer. rewrite execute_batch_command_redrive by exact Hfailed. reflexivity. }
  assert (Hnd0 : NoDup (map instance_id first_pass)).
  { unfold first_pass. rewrite run_pool_ids.
    eapply submseteq_NoDup; [apply validated_ids | exact Hnd]. }
  assert (Hsub : map instance_id (fst redrive)
                 ⊆+ map InstanceId (failed_instances validated_instances first_pass)).
  { unfold redrive. rewrite execute_batch_command_ids. apply validated_ids. }
  assert (Hnd1 : NoDup (map instance_id (fst redrive))).
  { eapply submseteq_NoDup; [exact Hsub|].
    eapply submseteq_NoDup; [apply failed_instances_ids | exact Hnd0]. }
  rewrite Houter. split; [apply patch_ids|].
  intros i r Hi.
  pose proof (patch_lookup (fst redrive) first_pass i r Hnd0 Hnd1 Hi) as Hlook.
  split; [exact Hlook|].
  intros Hs. rewrite Hlook.
  destruct (List.find _ (fst redrive)) as [rr|] eqn:Hfind; [|reflexivity].
  exfalso. apply List.find_some in Hfind as [Hin Heq]. apply String.eqb_eq in Heq.
  assert (Hid : In (instance_id rr)
                  (map InstanceId (failed_instances validated_instances first_pass))).
  { apply list_elem_of_In. eapply elem_of_submseteq; [|exact Hsub].
    apply list_elem_of_In, in_map, Hin. }
  apply failed_instances_failed in Hid as (r' & Hr' & Hfail & Hid).
  assert (r' = r).
  { eapply NoDup_ids_inj; [exact Hnd0 | exact Hr' | | congruence].
    apply list_elem_of_In, list_elem_of_lookup. eauto. }
  subst r'. contradiction.
Qed.

Lemma redrive_replacement_witness :
  let first_pass :=
    run_pool 3 "uptime" 120 (worker_of Scenarios.first_round) [1%nat]
      (_validate_ssm_instances Scenarios.all_online [Scenarios.web1; Scenarios.web2]) in
  let outer :=
    execute_batch_command 3 "uptime" 120 Scenarios.first_round
      [Scenarios.web1; Scenarios.web2] Scenarios.new_manager in
  map instance_id (fst outer) = map instance_id first_pass.
Proof.
  apply (proj1 (redrive_replacement 3 "uptime" 120 Scenarios.all_online
                  (worker_of Scenarios.first_round) [1%nat] Scenarios.second_round Saved
                  [Scenarios.web1; Scenarios.web2] Scenarios.new_manager
                  ltac:(apply NoDup_ListNoDup; repeat constructor; cbn; intuition discriminate)
                  ltac:(vm_compute; lia))).
Defined.

(** X7. One pass unless a re-drive is asked for: when the first pass has no
    failure, or the user does not answer [y], the call returns the results
    of the first pass, in completion order, and the history grows by exactly
    these results; nothing is run a second time. *)
Theorem single_pass (max_retries : nat) (command_ : string) (timeout_seconds : Z)
    (w : world) (instances : list instance_data) (self : BatchJobManager) :
  let first_pass :=
    run_pool max_retries command_ timeout_seconds (worker_of w) (completion_order w)
      (_validate_ssm_instances (describe_instance_information w) instances) in
  let out := execute_batch_command max_retries command_ timeout_seconds w instances self in
  retry_choice w = None \/ failed_count first_pass = 0%nat ->
  fst out = first_pass /\
  results_history (snd out) = results_history self ++ first_pass.
Proof.
  destruct w as [describe workers order answer outcome]. cbv zeta.
  cbn [describe_instance_information worker_of completion_order retry_choice].
  intros Hsingle. rewrite execute_batch_command_eq. cbv zeta.
  destruct (_validate_ssm_instances describe instances) as [|inst validated] eqn:Hv.
  - rewrite run_pool_nil. cbn. rewrite app_nil_r. split; reflexivity.
  - destruct (0 <? failed_count _)%nat eqn:Hf.
    + destruct Hsingle as [->|Hzero].
      * cbn. rewrite save_history. split; reflexivity.
      * apply Nat.ltb_lt in Hf. lia.
    + cbn. rewrite save_history. split; reflexivity.
Qed.

Lemma single_pass_witness :
  let first_pass :=
    run_pool 3 "uptime" 120 (worker_of declined_round) (completion_order declined_round)
      (_validate_ssm_instances (describe_instance_information declined_round)
         [Scenarios.web1]) in
  let out :=
    execute_batch_command 3 "uptime" 120 declined_round [Scenarios.web1]
      Scenarios.new_manager in
  fst out = first_pass /\
  results_history (snd out) = results_history Scenarios.new_manager ++ first_pass.
Proof.
  apply (single_pass 3 "uptime" 120 declined_round [Scenarios.web1] Scenarios.new_manager).
  left. reflexivity.
Defined.

(** X8. The history file: a call that ran its workers and whose dump
    succeeds leaves in the file the last 100 entries of the in-memory
    history, in order, and never more than 100; a dump that fails after the
    file was opened leaves a text cut short; a call without a reachable
    target does not touch the file. The in-memory history is never trimmed,
    and what happens at the file changes neither the returned results nor
    the in-memory history. *)
Theorem history_file_cap (max_retries : nat) (command_ : string) (timeout_seconds : Z)
    (describe : string -> list string -> describe_reply)
    (workers : nat -> worker_env) (order : list nat) (answer : option world)
    (instances : list instance_data) (self : BatchJobManager) :
  let run outcome :=
    execute_batch_command max_retries command_ timeout_seconds
      (mkWorld describe workers order answer outcome) instances self in
  (forall outcome,
     fst (run outcome) = fst (run Saved) /\
     results_history (snd (run outcome)) = results_history (snd (run Saved))) /\
  (exists pre,
     results_history (snd (run Saved)) = results_history self ++ pre ++ fst (run Saved)) /\
  (_validate_ssm_instances describe instances = [] ->
   forall outcome, snd (run outcome) = self) /\
  (_validate_ssm_instances describe instances <> [] ->
   batch_results_file (snd (run DumpFailed)) = Unfinished /\
   exists kept older,
     batch_results_file (snd (run Saved)) = Dump kept /\
     kept = recent_results (results_history (snd (run Saved))) /\
     (length kept <= 100)%nat /\
     results_history (snd (run Saved)) = older ++ kept).
Proof.
  intros run.
  assert (Hshape : exists results self1, forall outcome,
             run outcome
             = match _validate_ssm_instances describe instances with
               | [] => ([], self)
               | _ :: _ =>
                   (results, save_results_history outcome (extend_history results self1))
               end).
  { unfold run.
    destruct (_validate_ssm_instances describe instances) as [|inst validated] eqn:Hv.
    - exists [], self. intros outcome. rewrite execute_batch_command_eq. cbv zeta.
      rewrite Hv. reflexivity.
    - destruct (0 <? failed_count (run_pool max_retries command_ timeout_seconds
                                     workers order (inst :: validated)))%nat eqn:Hf;
        [destruct answer as [w'|]|].
      + destruct (execute_batch_command max_retries command_ timeout_seconds w'
                    (failed_instances (inst :: validated)
                       (run_pool max_retries command_ timeout_seconds
                          workers order (inst :: validated))) self)
          as [retry_results self1] eqn:Hredrive.
        eexists _, _. intros outcome. rewrite execute_batch_command_eq. cbv zeta.
        rewrite Hv, Hf, Hredrive. reflexivity.
      + eexists _, _. intros outcome. rewrite execute_batch_command_eq. cbv zeta.
        rewrite Hv, Hf. reflexivity.
      + eexists _, _. intros outcome. rewrite execute_batch_command_eq. cbv zeta.
        rewrite Hv, Hf. reflexivity. }
  destruct Hshape as (results & self1 & Hrun).
  split; [|split; [apply history_grows|split]].
  - intros outcome. rewrite (Hrun outcome), (Hrun Saved).
    destruct (_validate_ssm_instances describe instances); [split; reflexivity|].
    cbn [fst snd]. rewrite !save_history. split; reflexivity.
  - intros Hnil outcome. rewrite (Hrun outcome), Hnil. reflexivity.
  - intros Hne. rewrite (Hrun DumpFailed), (Hrun Saved).
    destruct (_validate_ssm_instances describe instances) as [|inst validated];
      [contradiction|].
    cbn. split; [reflexivity|].
    eexists _, (take (length (results_history self1 ++ results) - 100)
                  (results_history self1 ++ results)).
    split; [reflexivity|]. split; [reflexivity|]. unfold recent_results. split.
    + rewrite length_drop. lia.
    + symmetry. apply take_drop.
Qed.

Lemma history_file_cap_witness :
  let out :=
    execute_batch_command 3 "uptime" 120 declined_round [Scenarios.web1]
      Scenarios.new_manager in
  exists kept older,
    batch_results_file (snd out) = Dump kept /\
    kept = recent_results (results_history (snd out)) /\
    (length kept <= 100)%nat /\
    results_history (snd out) = older ++ kept.
Proof.
  refine (proj2 (proj2 (proj2 (proj2
            (history_file_cap 3 "uptime" 120
               (describe_instance_information declined_round)
               (worker_of declined_round) (completion_order declined_round)
               (retry_choice declined_round) [Scenarios.web1] Scenarios.new_manager)))
            _)).
  vm_compute. discriminate.
Defined.

End ManagerFacts.

(** * More on the cache *)

Module CacheFacts.

Import Cache CacheTheory Keys Schedules.


Lemma policy_ttl_bounds key : 60 <= _get_ttl_for_key key <= 3600.
Proof.
  unfold _get_ttl_for_key. rewrite default_ttl.
  match goal with |- context [Config.CACHE_TTLS !! ?r] => generalize r end.
  intros r. destruct (Config.CACHE_TTLS !! r) as [t|] eqn:Hr; cbn.
  - apply elem_of_list_to_map_2 in Hr. unfold Config.CACHE_TTLS_items in Hr.
    apply list_elem_of_In in Hr. cbn in Hr.
    repeat (destruct Hr as [Hr|Hr]; [injection Hr as _ <-; lia|]). destruct Hr.
  - unfold Config.CACHE_TTL_SECONDS. lia.
Qed.

Section Refresh.

Context {Any : Type}.
Implicit Types (sys : system Any) (w : worker Any) (a : action Any).

(** X10. A refresh that succeeds: when the fetch function of a refresh
    thread returns [d], the thread stores [d] under its key with the TTL of
    the key, counted from the moment of the [set] and not from the start of
    the refresh, so [get] answers [d] until that TTL has passed, whatever
    was cached before; the fetch function was called once, nothing was
    logged, the in-flight mark is gone, and no other key was touched. *)
Theorem refresh_success i w d (t1 t2 t3 : Z) sys :
  threads sys !! i = Some w ->
  w_pc w = WStart ->
  w_func w tt = Fetched d ->
  let key := w_key w in
  let done := run [StepWorker i t1; StepWorker i t2; StepWorker i t3] sys in
  _cache (cache done) !! key = Some (mkCacheEntry d t2 (_get_ttl_for_key key)) /\
  (forall now, now - t2 <= timedelta_seconds (_get_ttl_for_key key) ->
     fst (get key now (cache done)) = Some d) /\
  (forall now, now - t2 > timedelta_seconds (_get_ttl_for_key key) ->
     fst (get key now (cache done)) = None) /\
  (forall key', key' <> key -> _cache (cache done) !! key' = _cache (cache sys) !! key') /\
  fetch_calls done = fetch_calls sys ++ [key] /\
  warnings done = warnings sys /\
  in_flight key done = false.
Proof.
  intros Hi Hpc Hf key done.
  destruct (worker_three_steps i w t1 t2 t3 sys Hi Hpc) as (Hth & Hlog & Hact & Hres).
  change (run _ sys) with done in Hth, Hlog, Hact, Hres.
  change (w_key w) with key in Hlog, Hact, Hres.
  rewrite Hf in Hres. destruct Hres as [Hc Hw].
  assert (Hentry : _cache (cache done) !! key
                   = Some (mkCacheEntry d t2 (_get_ttl_for_key key)))
    by (rewrite Hc; apply lookup_insert_eq).
  split; [exact Hentry|]. split; [|split; [|split; [|split; [exact Hlog|split; [exact Hw|]]]]].
  - intros now Hfresh. apply (get_hit key now (cache done) _ Hentry).
    apply is_expired_false. exact Hfresh.
  - intros now Hold. apply (get_expired key now (cache done) _ Hentry).
    apply is_expired_spec. exact Hold.
  - intros key' Hne. rewrite Hc. apply lookup_insert_ne. congruence.
  - apply in_flight_false. rewrite Hact, dom_delete_L.
    intros [_ Hn]%elem_of_difference. apply Hn, elem_of_singleton. reflexivity.
Qed.

(** *** Reachable states *)

Lemma starts_of_cons key a (schedule : list (action Any)) :
  starts_of key (a :: schedule)
  = ((if starts_key key a then 1 else 0) + starts_of key schedule)%nat.
Proof. unfold starts_of. cbn. destruct (starts_key key a); reflexivity. Qed.

Lemma balance_any_step key a sys :
  (fetch_balance key (step a sys)
   <= fetch_balance key sys + if starts_key key a then 1 else 0)%nat.
Proof.
  destruct (starts_key key a) eqn:Hs.
  - destruct a as [k now|k v ttl now|k| |k f|i now]; try discriminate Hs.
    cbn in Hs. apply bool_decide_eq_true in Hs. subst k. cbn [step].
    destruct (in_flight key sys) eqn:Hin.
    + rewrite start_in_flight by exact Hin. lia.
    + rewrite balance_start by exact Hin. lia.
  - rewrite balance_step by exact Hs. lia.
Qed.

Lemma balance_any_run key schedule :
  forall sys,
    (fetch_balance key (run schedule sys)
     <= fetch_balance key sys + starts_of key schedule)%nat.
Proof.
  induction schedule as [|a schedule IH]; intros sys.
  - cbn. unfold starts_of. cbn. lia.
  - change (run (a :: schedule) sys) with (run schedule (step a sys)).
    rewrite starts_of_cons. specialize (IH (step a sys)).
    pose proof (balance_any_step key a sys). lia.
Qed.

(** X11. What holds in every state the process can reach from an empty
    cache, whatever the callers and the threads do and in whatever order:
    there is at most one live refresh thread per key, a key is marked in
    flight exactly while it has a live thread (so no mark is left behind
    when the threads are gone), and the fetch function of a key has been
    called at most once for each call of [start_background_refresh] with
    that key. *)
Theorem reachable_states (schedule : list (action Any)) (key : string) :
  let sys := run schedule init_system in
  NoDup (thread_keys sys) /\
  (in_flight key sys = true <-> key ∈ thread_keys sys) /\
  (threads sys = [] -> _background_refresh_active (cache sys) = ∅) /\
  (count_key key (fetch_calls sys) <= starts_of key schedule)%nat.
Proof.
  intros sys.
  assert (Hc : consistent sys) by apply consistent_run, consistent_init.
  destruct Hc as [Hnd Hdom].
  split; [exact Hnd|]. split; [|split].
  - rewrite in_flight_true. apply Hdom.
  - intros Hnone. apply dom_empty_iff_L. apply set_eq. intros k.
    rewrite Hdom. unfold thread_keys. rewrite Hnone. cbn.
    split; [intros H; inversion H | intros H; apply elem_of_empty in H; destruct H].
  - pose proof (balance_any_run key schedule init_system) as Hb.
    change (run schedule init_system) with sys in Hb.
    unfold fetch_balance in Hb. cbn in Hb. lia.
Qed.

(** X12. Invalidation does not reach a refresh that is under way:
    [invalidate(key)] and [clear()] remove entries only; the thread and the
    in-flight mark stay, and when the thread stores what it fetched, the
    entry is back, with the data fetched before the invalidation. *)
Theorem refresh_outlives_invalidate i w d (now : Z) sys a :
  threads sys !! i = Some w ->
  w_pc w = WFetched (Fetched d) ->
  a = CallInvalidate (w_key w) \/ a = CallClear ->
  let key := w_key w in
  _cache (cache (step a sys)) !! key = None /\
  threads (step a sys) = threads sys /\
  in_flight key (step a sys) = in_flight key sys /\
  _cache (cache (step (StepWorker i now) (step a sys))) !! key
    = Some (mkCacheEntry d now (_get_ttl_for_key key)) /\
  fst (get key now (cache (step (StepWorker i now) (step a sys)))) = Some d.
Proof.
  intros Hi Hpc Ha key.
  assert (Hth : threads (step a sys) = threads sys) by (destruct Ha; subst a; reflexivity).
  assert (Hentry : _cache (cache (step (StepWorker i now) (step a sys))) !! key
                   = Some (mkCacheEntry d now (_get_ttl_for_key key))).
  { cbn [step]. rewrite (worker_step_at i now w) by (rewrite Hth; exact Hi).
    rewrite Hpc. cbn. apply lookup_insert_eq. }
  split; [destruct Ha; subst a; cbn; [apply lookup_delete_eq | apply lookup_empty]|].
  split; [exact Hth|]. split; [destruct Ha; subst a; reflexivity|].
  split; [exact Hentry|].
  apply (get_hit key now _ _ Hentry). apply is_expired_false. cbn.
  pose proof (policy_ttl_bounds key). unfold timedelta_seconds. lia.
Qed.

(** X13. Keys do not interfere: what [get] answers for a key is changed
    neither by [set], [invalidate] or [start_background_refresh] on another
    key, nor by any step of a refresh thread for another key. *)
Theorem key_isolation (key : string) (now : Z) a sys :
  match a with
  | CallGet _ _ => True
  | CallSet key' _ _ _ | CallInvalidate key' | CallStart key' _ => key' <> key
  | CallClear => False
  | StepWorker i _ =>
      match threads sys !! i with
      | Some w => w_key w <> key
      | None => True
      end
  end ->
  fst (get key now (cache (step a sys))) = fst (get key now (cache sys)).
Proof.
  intros Hother.
  assert (Hframe : _cache (cache (step a sys)) !! key = _cache (cache sys) !! key).
  { apply step_frame.
    destruct a as [k t|k v ttl t|k| |k f|i t]; cbn in *; try reflexivity.
    - apply bool_decide_eq_false_2, Hother.
    - apply bool_decide_eq_false_2, Hother.
    - contradiction.
    - destruct (threads sys !! i) as [w|]; [|reflexivity].
      destruct (w_pc w) as [|[d|e]|]; try reflexivity.
      apply bool_decide_eq_false_2, Hother. }
  unfold get. rewrite Hframe.
  destruct (_cache (cache sys) !! key) as [entry|]; [|reflexivity].
  destruct (negb (is_expired now entry)); reflexivity.
Qed.

End Refresh.

Lemma refresh_success_witness :
  let sys :=
    start_background_refresh "k" Scenarios.slow_fetch
      (with_cache (set "k" 7%nat (Some 1) 0) init_system) in
  fst (get "k" 200000000
         (cache (run [StepWorker 0 100000000; StepWorker 0 100000001;
                      StepWorker 0 100000002] sys)))
  = Some 42%nat.
Proof.
  intros sys.
  pose proof (refresh_success 0 (mkWorker "k" Scenarios.slow_fetch WStart) 42%nat
                100000000 100000001 100000002 sys eq_refl eq_refl eq_refl)
    as (_ & Hfresh & _).
  apply Hfresh. vm_compute. discriminate.
Defined.

Lemma refresh_outlives_invalidate_witness :
  let sys :=
    run [CallStart "k" Scenarios.slow_fetch; StepWorker 0 1] (@init_system nat) in
  _cache (cache (step (StepWorker 0 5) (step (CallInvalidate "k") sys))) !! "k"
  = Some (mkCacheEntry 42%nat 5 (_get_ttl_for_key "k")).
Proof.
  intros sys.
  pose proof (refresh_outlives_invalidate 0
                (mkWorker "k" Scenarios.slow_fetch (WFetched (Fetched 42%nat))) 42%nat 5
                sys (CallInvalidate "k") eq_refl eq_refl (or_introl eq_refl))
    as (_ & _ & _ & Hback & _).
  exact Hback.
Defined.

Lemma key_isolation_witness :
  fst (get "a" 1
         (cache (step (CallSet "b" 2%nat None 1)
                   (with_cache (set "a" 1%nat None 0) init_system))))
  = fst (get "a" 1 (cache (with_cache (set "a" 1%nat None 0) init_system))).
Proof.
  apply (key_isolation "a" 1 (CallSet "b" 2%nat None 1)). discriminate.
Defined.

End CacheFacts.

(** * Listing instances *)

Module ClientFacts.

Import Cache CacheTheory Keys Clients.


Section Any.
Context {Any : Type}.

Lemma refresh_after_start (key : string) (fetch : unit -> fetch_result Any)
    (t1 t2 t3 : Z) (sys : system Any) :
  in_flight key sys = false ->
  let i := length (threads sys) in
  let done :=
    run [StepWorker i t1; StepWorker i t2; StepWorker i t3]
      (start_background_refresh key fetch sys) in
  threads done = threads sys /\
  fetch_calls done = fetch_calls sys ++ [key] /\
  in_flight key done = false /\
  match fetch tt with
  | Fetched d =>
      _cache (cache done)
        = <[key := mkCacheEntry d t2 (_get_ttl_for_key key)]> (_cache (cache sys)) /\
      warnings done = warnings sys
  | FetchRaised e =>
      _cache (cache done) = _cache (cache sys) /\
      warnings done
        = warnings sys ++ ["백그라운드 새로고침 실패 (" +:+ key +:+ "): " +:+ e]
  end.
Proof.
  intros Hidle i done.
  assert (Hstart : start_background_refresh key fetch sys
    = {| cache := {| _cache := _cache (cache sys);
                     _background_refresh_active :=
                       <[key := true]> (_background_refresh_active (cache sys)) |};
         threads := threads sys ++ [mkWorker key fetch WStart];
         fetch_calls := fetch_calls sys;
         warnings := warnings sys |}).
  { unfold start_background_refresh. rewrite Hidle. reflexivity. }
  assert (Hi : threads (start_background_refresh key fetch sys) !! i
               = Some (mkWorker key fetch WStart)).
  { rewrite Hstart. cbn [threads]. rewrite lookup_app_r by (unfold i; lia).
    unfold i. rewrite Nat.sub_diag. reflexivity. }
  destruct (worker_three_steps i _ t1 t2 t3 _ Hi eq_refl) as (Hth & Hlog & Hact & Hres).
  fold done in Hth, Hlog, Hact, Hres. cbn [w_key w_func] in Hlog, Hact, Hres.
  split; [|split; [|split]].
  - rewrite Hth, Hstart. cbn [threads]. unfold i. rewrite delete_middle. apply app_nil_r.
  - rewrite Hlog, Hstart. reflexivity.
  - apply in_flight_false. rewrite Hact, dom_delete_L.
    intros [_ Hn]%elem_of_difference. apply Hn, elem_of_singleton. reflexivity.
  - destruct (fetch tt) as [d|e]; destruct Hres as [Hc Hw];
      rewrite Hc, Hw, Hstart; split; reflexivity.
Qed.

End Any.

Section EC2.

Context {X : Type}.
Implicit Types (describe : nat -> option string -> describe_instances_reply X).

Lemma truthy_Some next_token token :
  truthy next_token = Some token -> next_token = Some token /\ token <> "".
Proof.
  destruct next_token as [[|c s]|]; cbn; intros H; try discriminate;
    injection H as <-; split; [reflexivity | discriminate].
Qed.

Lemma pages_of_snoc describe requests params :
  pages_of describe (requests ++ [params])
  = pages_of describe requests
    ++ match describe (length requests) params with
       | DescribePage resp => concat (Reservations resp)
       | _ => []
       end.
Proof.
  unfold pages_of. rewrite imap_app, concat_app. cbn.
  rewrite Nat.add_0_r, app_nil_r. reflexivity.
Qed.

Lemma all_pages_snoc describe requests params resp :
  all_pages describe requests ->
  describe (length requests) params = DescribePage resp ->
  all_pages describe (requests ++ [params]).
Proof.
  intros Hall Hlast k p Hk.
  apply lookup_app_Some in Hk as [Hk|[Hge Hk]].
  - apply Hall, Hk.
  - apply list_lookup_singleton_Some in Hk as [Hk <-].
    replace k with (length requests) by lia. eauto.
Qed.

Lemma fetch_pages_spec describe remaining :
  forall next_token seen_tokens insts requests,
    (length requests + remaining = max_pages)%nat ->
    match requests with
    | [] => next_token = None
    | first :: _ => first = None /\ exists token, next_token = Some token /\ token <> ""
    end ->
    NoDup requests -> Some "" ∉ requests ->
    (forall token, token ∈ seen_tokens <-> Some token ∈ requests) ->
    all_pages describe requests ->
    insts = pages_of describe requests ->
    match fetch_pages describe remaining next_token seen_tokens insts requests with
    | PagesDone insts' page_count requests' duplicate =>
        well_formed requests' /\ all_pages describe requests' /\
        insts' = pages_of describe requests' /\
        page_count = (length requests' + if duplicate then 1 else 0)%nat /\
        (page_count <= max_pages)%nat
    | PagesClientError e requests' =>
        well_formed requests' /\ (length requests' <= max_pages)%nat /\
        exists front params, requests' = front ++ [params] /\
          all_pages describe front /\
          describe (length front) params = DescribeClientError e
    | PagesOtherError e requests' =>
        well_formed requests' /\ (length requests' <= max_pages)%nat /\
        exists front params, requests' = front ++ [params] /\
          all_pages describe front /\
          describe (length front) params = DescribeOtherError e
    end.
Proof.
  induction remaining as [|remaining IH];
    intros next_token seen_tokens insts requests Hlen Hshape Hnd Hne Hseen Hall Hinsts.
  - cbn. destruct requests as [|first rest]; [cbn in Hlen; discriminate|].
    destruct Hshape as [-> _].
    repeat split; try assumption; cbn in *; lia.
  - cbn [fetch_pages].
    assert (Hgo : forall seen_tokens' params,
      head (requests ++ [params]) = Some None ->
      NoDup (requests ++ [params]) -> Some "" ∉ requests ++ [params] ->
      (forall token, token ∈ seen_tokens' <-> Some token ∈ requests ++ [params]) ->
      match
        match describe (length requests) params with
        | DescribePage resp =>
            match truthy (NextToken resp) with
            | None =>
                PagesDone (insts ++ concat (Reservations resp))
                  (max_pages - remaining)%nat (requests ++ [params]) false
            | Some token =>
                fetch_pages describe remaining (Some token) seen_tokens'
                  (insts ++ concat (Reservations resp)) (requests ++ [params])
            end
        | DescribeClientError e => PagesClientError e (requests ++ [params])
        | DescribeOtherError e => PagesOtherError e (requests ++ [params])
        end
      with
      | PagesDone insts' page_count requests' duplicate =>
          well_formed requests' /\ all_pages describe requests' /\
          insts' = pages_of describe requests' /\
          page_count = (length requests' + if duplicate then 1 else 0)%nat /\
          (page_count <= max_pages)%nat
      | PagesClientError e requests' =>
          well_formed requests' /\ (length requests' <= max_pages)%nat /\
          exists front params, requests' = front ++ [params] /\
            all_pages describe front /\
            describe (length front) params = DescribeClientError e
      | PagesOtherError e requests' =>
          well_formed requests' /\ (length requests' <= max_pages)%nat /\
          exists front params, requests' = front ++ [params] /\
            all_pages describe front /\
            describe (length front) params = DescribeOtherError e
      end).
    { intros seen' params Hhead Hnd' Hne' Hseen'.
      assert (Hlen' : length (requests ++ [params]) = S (length requests))
        by (rewrite length_app; cbn; lia).
      destruct (describe (length requests) params) as [resp|e|e] eqn:Hreply.
      - assert (Hall' : all_pages describe (requests ++ [params]))
          by (eapply all_pages_snoc; eassumption).
        assert (Hinsts' : insts ++ concat (Reservations resp)
                          = pages_of describe (requests ++ [params]))
          by (rewrite pages_of_snoc, Hreply, Hinsts; reflexivity).
        destruct (truthy (NextToken resp)) as [token|] eqn:Htoken.
        + apply truthy_Some in Htoken as [_ Htoken].
          apply IH; try assumption.
          * rewrite Hlen'. lia.
          * destruct (requests ++ [params]) as [|first rest] eqn:E;
              [destruct requests; discriminate|].
            cbn in Hhead. injection Hhead as ->. eauto.
        + repeat split; try assumption; rewrite ?Hlen'; unfold max_pages in *; lia.
      - repeat split; try assumption; [rewrite Hlen'; lia|].
        exists requests, params. auto.
      - repeat split; try assumption; [rewrite Hlen'; lia|].
        exists requests, params. auto. }
    destruct (truthy next_token) as [token|] eqn:Htruthy.
    + apply truthy_Some in Htruthy as [-> Htoken].
      destruct requests as [|first rest] eqn:E; [discriminate|].
      rewrite <- E in *. destruct Hshape as [-> _].
      case_bool_decide as Hin.
      * repeat split; try assumption.
        -- rewrite E. reflexivity.
        -- unfold max_pages in *. lia.
        -- unfold max_pages in *. lia.
      * assert (Hfresh : Some token ∉ requests) by (rewrite <- Hseen; exact Hin).
        apply Hgo.
        -- rewrite E. reflexivity.
        -- apply NoDup_app. split; [exact Hnd|]. split; [|apply NoDup_singleton].
           intros x Hx ->%list_elem_of_singleton. contradiction.
        -- intros [H|H%list_elem_of_singleton]%elem_of_app; [contradiction|].
           injection H as H. congruence.
        -- intros t. rewrite elem_of_cons, elem_of_app, list_elem_of_singleton, Hseen.
           split; [intros [->|H]; auto | intros [H|H]; [auto | left; congruence]].
    + assert (Hnone : requests = []).
      { destruct requests as [|first rest]; [reflexivity|].
        destruct Hshape as [_ (token & -> & Htoken)].
        destruct token; [congruence | discriminate]. }
      subst requests. apply Hgo.
      * reflexivity.
      * apply NoDup_singleton.
      * intros H%list_elem_of_singleton. discriminate.
      * intros t. rewrite Hseen. split; intros H; [inversion H|].
        apply list_elem_of_singleton in H. discriminate.
Qed.

Lemma last_split {A} (l : list A) x :
  head l = Some x -> exists front final, l = front ++ [final].
Proof.
  intros H. destruct l as [|y l] using rev_ind; [discriminate|]. eauto.
Qed.

Lemma all_pages_front describe front final :
  all_pages describe (front ++ [final]) ->
  all_pages describe front /\
  exists resp, describe (length front) final = DescribePage resp.
Proof.
  intros Hall. split.
  - intros k p Hk. apply Hall. apply lookup_app_l_Some. exact Hk.
  - apply Hall. rewrite lookup_app_r by lia. rewrite Nat.sub_diag. reflexivity.
Qed.

Lemma fetch_pages_start describe :
  match fetch_pages describe max_pages None [] [] [] with
  | PagesDone insts' page_count requests' duplicate =>
      well_formed requests' /\ all_pages describe requests' /\
      insts' = pages_of describe requests' /\
      page_count = (length requests' + if duplicate then 1 else 0)%nat /\
      (page_count <= max_pages)%nat
  | PagesClientError e requests' =>
      well_formed requests' /\ (length requests' <= max_pages)%nat /\
      exists front params, requests' = front ++ [params] /\
        all_pages describe front /\
        describe (length front) params = DescribeClientError e
  | PagesOtherError e requests' =>
      well_formed requests' /\ (length requests' <= max_pages)%nat /\
      exists front params, requests' = front ++ [params] /\
        all_pages describe front /\
        describe (length front) params = DescribeOtherError e
  end.
Proof.
  apply fetch_pages_spec; try reflexivity.
  - apply NoDup_nil_2.
  - intros H. inversion H.
  - intros t. split; intros H; inversion H.
  - intros k p Hk. discriminate.
Qed.

(** X14. Pagination of [_fetch_instances]: at most 100 calls of
    [describe_instances] are made; the first carries no token, no token is
    sent twice and the empty token is never sent. Only the last call can
    fail: if it was answered with a page, the method returns the instances
    of all the pages it got, in order; if it raised [ClientError], the
    instances collected so far are dropped, the empty list is returned and
    the error is logged; any other exception leaves the method. *)
Theorem fetch_pagination describe :
  let out := _fetch_instances describe in
  well_formed (requests_made out) /\
  (length (requests_made out) <= 100)%nat /\
  exists front final,
    requests_made out = front ++ [final] /\
    all_pages describe front /\
    match describe (length front) final with
    | DescribePage _ => result out = Fetched (pages_of describe (requests_made out))
    | DescribeClientError e =>
        result out = Fetched [] /\ logged out = [ListInstancesFailed e]
    | DescribeOtherError e => result out = FetchRaised e
    end.
Proof.
  intros out. subst out. unfold _fetch_instances.
  pose proof (fetch_pages_start describe) as H.
  destruct (fetch_pages describe max_pages None [] [] [])
    as [insts pc requests dup|e requests|e requests]; cbn [requests_made result logged].
  - destruct H as (Hwf & Hall & -> & -> & Hle).
    split; [exact Hwf|]. split; [unfold max_pages in Hle; lia|].
    destruct (last_split requests None (proj1 Hwf)) as (front & final & ->).
    exists front, final. split; [reflexivity|].
    apply all_pages_front in Hall as [Hfront [resp ->]]. auto.
  - destruct H as (Hwf & Hle & front & final & -> & Hfront & Hreply).
    split; [exact Hwf|]. split; [exact Hle|].
    exists front, final. rewrite Hreply. auto.
  - destruct H as (Hwf & Hle & front & final & -> & Hfront & Hreply).
    split; [exact Hwf|]. split; [exact Hle|].
    exists front, final. rewrite Hreply. auto.
Qed.

Local Ltac not_logged :=
  let Hin := fresh "Hin" in
  intros Hin; repeat (apply elem_of_cons in Hin as [Hin|Hin]; [discriminate|]);
  inversion Hin.

(** X15. The page-limit warning of [_fetch_instances] is logged exactly
    when every call was answered with a page and either 100 calls were
    made, or 99 were made and the token of the 99th page had been sent
    before. So it is also logged when the 100th page is the last one and
    the list is complete. *)
Theorem page_limit_warning describe :
  let out := _fetch_instances describe in
  PageLimit ∈ logged out <->
  all_pages describe (requests_made out) /\
  (length (requests_made out) = 100%nat \/
   length (requests_made out) = 99%nat /\ DuplicateToken ∈ logged out).
Proof.
  intros out. subst out. unfold _fetch_instances.
  pose proof (fetch_pages_start describe) as H.
  destruct (fetch_pages describe max_pages None [] [] [])
    as [insts pc requests dup|e requests|e requests]; cbn [requests_made result logged].
  - destruct H as (Hwf & Hall & -> & -> & Hle). unfold max_pages in *.
    destruct dup;
      match goal with
      | |- context [(100 <=? ?n)%nat] => destruct (Nat.leb_spec 100 n)
      end; cbn.
    + split; [|intros _; set_solver].
      intros _. split; [exact Hall|]. right. split; [lia|set_solver].
    + split; [not_logged|]. intros [_ [Hl|[Hl _]]]; lia.
    + split; [|intros _; set_solver]. intros _. split; [exact Hall|]. left. lia.
    + split; [intros Hin; inversion Hin|]. intros [_ [Hl|[_ Hin]]]; [lia|inversion Hin].
  - destruct H as (Hwf & Hle & front & final & -> & Hfront & Hreply).
    split; [not_logged|]. intros [Hall _].
    apply all_pages_front in Hall as [_ [resp Hresp]]. congruence.
  - destruct H as (Hwf & Hle & front & final & -> & Hfront & Hreply).
    split; [intros Hin; inversion Hin|]. intros [Hall _].
    apply all_pages_front in Hall as [_ [resp Hresp]]. congruence.
Qed.

Lemma failed_list_is_empty describe e :
  logged (_fetch_instances describe) = [ListInstancesFailed e] ->
  result (_fetch_instances describe) = Fetched [].
Proof.
  unfold _fetch_instances.
  destruct (fetch_pages describe max_pages None [] [] [])
    as [insts pc requests dup|e' requests|e' requests]; cbn [requests_made result logged].
  - destruct dup; destruct (max_pages <=? pc)%nat; discriminate.
  - reflexivity.
  - discriminate.
Qed.

Lemma instances_ttl profile region :
  _get_ttl_for_key (instances_key profile region) = 120.
Proof. vm_compute. reflexivity. Qed.

Implicit Types (sys : system (list X)) (fetch : unit -> fetch_result (list X)).

Lemma list_instances_miss profile region force fetch now_get now_set sys :
  force = true \/
  fst (get (instances_key profile region) now_get (cache sys)) = None \/
  fst (get (instances_key profile region) now_get (cache sys)) = Some [] ->
  list_instances profile region force fetch now_get now_set sys
  = match fetch tt with
    | Fetched instances =>
        (Fetched instances,
         with_cache (set (instances_key profile region) instances None now_set) sys)
    | FetchRaised e => (FetchRaised e, sys)
    end.
Proof.
  unfold list_instances. intros H. destruct force; [reflexivity|].
  destruct H as [H|[->| ->]]; [discriminate|reflexivity|reflexivity].
Qed.

Lemma list_instances_hit profile region fetch now_get now_set sys x rest :
  fst (get (instances_key profile region) now_get (cache sys)) = Some (x :: rest) ->
  list_instances profile region false fetch now_get now_set sys
  = (Fetched (x :: rest),
     start_background_refresh (instances_key profile region) fetch sys).
Proof. unfold list_instances. intros ->. reflexivity. Qed.



End EC2.



End ClientFacts.
